(** * whisper: peer-scoped rate limiter and libp2p connection adapter

    A shallow embedding of

    - [ratelimiter/peer.go]: identity extractors, [PeerRateLimiter] and the
      [ForWhisper] direction wrapper;
    - the libp2p adapter ([connection], [PubKeyToNodeID], [Handle]);

    together with the parts of the Go standard library they call and a model
    of the bucket engine, the persistence store and the persisted rate
    limiter, which belong to package [ratelimiter] but whose sources are not
    available and are therefore written from the specification. *)

From Stdlib Require Import ZArith Ascii String Lia.
From Stdlib.Strings Require Import Byte.
From stdpp Require Import gmap strings list fin_maps.

Local Open Scope Z_scope.

(** Byte strings are keys of the persistence store. *)
#[global] Instance byte_eq_dec : EqDecision byte.
Proof.
  intros x y. destruct (Byte.byte_eq_dec x y); [left | right]; assumption.
Defined.

#[global] Instance byte_countable : Countable byte.
Proof.
  apply (inj_countable' Byte.to_N
           (fun n => match Byte.of_N n with Some b => b | None => x00 end)).
  intros b. rewrite Byte.of_to_N. reflexivity.
Defined.

#[global] Instance byte_inhabited : Inhabited byte := populate x00.

(** Go's [error]: [None] is [nil]. *)
Definition error := option string.

(* ===================================================================== *)
(** * The Go standard library, as far as the code uses it *)
(* ===================================================================== *)

Module Go.

(** ** [time] *)

(** A [time.Time] is kept as the instant it names, in nanoseconds since
    January 1, year 1, 00:00:00 UTC, which is the zero value [time.Time{}].
    The wall and monotonic clock readings of a [Time] are not told apart. *)
Definition Time := Z.

(** A [time.Duration] is an [int64] count of nanoseconds. *)
Definition Duration := Z.

Definition zeroTime : Time := 0.

Definition minDuration : Duration := - 2 ^ 63.
Definition maxDuration : Duration := 2 ^ 63 - 1.

Definition Nanosecond : Duration := 1.
Definition Second : Duration := 1000000000.
Definition Hour : Duration := 3600 * Second.

(** Seconds from the zero [Time] to January 1, 1970 ([unixToInternal]). *)
Definition unixToInternal : Z := (1969 * 365 + 1969 / 4 - 1969 / 100 + 1969 / 400) * 86400.

(** [time.Unix(sec, 0)]. *)
Definition Unix (sec : Z) : Time := (sec + unixToInternal) * Second.

(** [t.Sub(u)]: "If the result exceeds the maximum (or minimum) value that
    can be stored in a Duration, the maximum (or minimum) duration will be
    returned." *)
Definition Sub (t u : Time) : Duration :=
  if t - u >? maxDuration then maxDuration
  else if t - u <? minDuration then minDuration
  else t - u.

(** [time.Since(t)] is [time.Now().Sub(t)]; the clock reading is an input. *)
Definition Since (now t : Time) : Duration := Sub now t.

(** ** [strings] *)

Definition len (s : string) : nat := String.length s.

(** [strings.Split(s, sep)] for a separator of one byte: the pieces of [s]
    between the occurrences of [sep]; always at least one piece. *)
Fixpoint Split_from (cur : string) (s : string) (sep : ascii) : list string :=
  match s with
  | EmptyString => [cur]
  | String c s' =>
      if Ascii.eqb c sep then cur :: Split_from EmptyString s' sep
      else Split_from (cur ++ String c EmptyString)%string s' sep
  end.

Definition Split (s : string) (sep : ascii) : list string :=
  Split_from EmptyString s sep.

(** ** [net] *)

(** [net.IP] is a byte slice; [nil] is the empty list. *)
Definition IP := list byte.

Definition IPv4len : nat := 4.
Definition IPv6len : nat := 16.

Definition byte_of_Z (n : Z) : byte :=
  match Byte.of_N (Z.to_N (n mod 256)) with Some b => b | None => x00 end.

Definition Z_of_ascii (c : ascii) : Z := Z.of_N (N_of_ascii c).

(** [net.IPv4(a, b, c, d)]: the 16-byte form of an IPv4 address. *)
Definition v4InV6Prefix : list byte :=
  [x00; x00; x00; x00; x00; x00; x00; x00; x00; x00; xff; xff].

Definition IPv4 (a b c d : byte) : IP := v4InV6Prefix ++ [a; b; c; d].

Definition big : Z := 16777215.

Definition is_digit (c : ascii) : bool :=
  (48 <=? Z_of_ascii c) && (Z_of_ascii c <=? 57).

(** [dtoi]: decimal to integer; returns number, characters consumed,
    success. *)
Fixpoint dtoi_from (s : string) (n : Z) (i : nat) : Z * nat * bool :=
  match s with
  | String c s' =>
      if is_digit c then
        let n' := n * 10 + (Z_of_ascii c - 48) in
        if n' >=? big then (big, i, false) else dtoi_from s' n' (S i)
      else if Nat.eqb i 0 then (0, O, false) else (n, i, true)
  | EmptyString => if Nat.eqb i 0 then (0, O, false) else (n, i, true)
  end.

Definition dtoi (s : string) : Z * nat * bool := dtoi_from s 0 O.

Definition hex_value (c : ascii) : option Z :=
  let z := Z_of_ascii c in
  if (48 <=? z) && (z <=? 57) then Some (z - 48)
  else if (97 <=? z) && (z <=? 102) then Some (z - 97 + 10)
  else if (65 <=? z) && (z <=? 70) then Some (z - 65 + 10)
  else None.

(** [xtoi]: hexadecimal to integer. *)
Fixpoint xtoi_from (s : string) (n : Z) (i : nat) : Z * nat * bool :=
  match s with
  | String c s' =>
      match hex_value c with
      | Some v =>
          let n' := n * 16 + v in
          if n' >=? big then (0, i, false) else xtoi_from s' n' (S i)
      | None => if Nat.eqb i 0 then (0, i, false) else (n, i, true)
      end
  | EmptyString => if Nat.eqb i 0 then (0, i, false) else (n, i, true)
  end.

Definition xtoi (s : string) : Z * nat * bool := xtoi_from s 0 O.

(** [s[c:]] *)
Fixpoint string_drop (n : nat) (s : string) : string :=
  match n, s with
  | O, _ => s
  | S n', String _ s' => string_drop n' s'
  | S _, EmptyString => EmptyString
  end.

(** [parseIPv4]: four decimal octets separated by dots; [None] is [nil]. *)
Fixpoint parseIPv4_from (k : nat) (first : bool) (s : string) (p : list byte)
  : option (list byte) :=
  match k with
  | O => if Nat.eqb (len s) 0 then Some p else None
  | S k' =>
      if Nat.eqb (len s) 0 then None
      else
        let after_dot :=
          if first then Some s
          else match s with
               | String c s' => if Ascii.eqb c "."%char then Some s' else None
               | EmptyString => None
               end in
        match after_dot with
        | None => None
        | Some s1 =>
            let '(n, c, ok) := dtoi s1 in
            if negb ok || (n >? 255) then None
            else parseIPv4_from k' false (string_drop c s1) (p ++ [byte_of_Z n])
        end
  end.

Definition parseIPv4 (s : string) : IP :=
  match parseIPv4_from IPv4len true s [] with
  | Some [a; b; c; d] => IPv4 a b c d
  | _ => []
  end.

(** [parseIPv6]: the loop reads 16-bit hexadecimal groups separated by
    colons, with at most one [::] (its position is [ellipsis], [-1] when
    absent) and possibly a trailing dotted IPv4 address. The result of the
    loop is [None] where the source returns [nil]. Every round adds at least
    two to [i], so nine rounds are enough. *)
Definition char_at (s : string) (c : nat) : option ascii := String.get c s.

Fixpoint parseIPv6_loop (fuel : nat) (s : string) (i : nat) (ip : list byte)
    (ellipsis : Z) : option (string * nat * list byte * Z) :=
  match fuel with
  | O => None
  | S fuel' =>
      if negb (i <? IPv6len)%nat then Some (s, i, ip, ellipsis)
      else
        let '(n, c, ok) := xtoi s in
        if negb ok || (n >? 65535) then None
        else if (c <? len s)%nat
                && bool_decide (char_at s c = Some "."%char) then
          if (ellipsis <? 0) && negb (i =? IPv6len - IPv4len)%nat then None
          else if (IPv6len <? i + IPv4len)%nat then None
          else
            match parseIPv4 s with
            | [] => None
            | ip4 =>
                let ip1 := <[i := ip4 !!! 12%nat]> ip in
                let ip2 := <[(i + 1)%nat := ip4 !!! 13%nat]> ip1 in
                let ip3 := <[(i + 2)%nat := ip4 !!! 14%nat]> ip2 in
                let ip4' := <[(i + 3)%nat := ip4 !!! 15%nat]> ip3 in
                Some (EmptyString, (i + IPv4len)%nat, ip4', ellipsis)
            end
        else
          let ip1 := <[i := byte_of_Z (Z.shiftr n 8)]> ip in
          let ip2 := <[(i + 1)%nat := byte_of_Z n]> ip1 in
          let i2 := (i + 2)%nat in
          match string_drop c s with
          | EmptyString => Some (EmptyString, i2, ip2, ellipsis)
          | String c0 s1 =>
              if negb (Ascii.eqb c0 ":"%char) then None
              else
                match s1 with
                | EmptyString => None
                | String c1 s2 =>
                    if Ascii.eqb c1 ":"%char then
                      if ellipsis >=? 0 then None
                      else
                        match s2 with
                        | EmptyString =>
                            Some (EmptyString, i2, ip2, Z.of_nat i2)
                        | _ => parseIPv6_loop fuel' s2 i2 ip2 (Z.of_nat i2)
                        end
                    else parseIPv6_loop fuel' s1 i2 ip2 ellipsis
                end
          end
  end.

(** Expanding the ellipsis: the bytes from [ellipsis] to [i] move up by
    [n = IPv6len - i], highest index first, and the gap is zeroed. *)
Definition expand_ellipsis (ip : list byte) (i e : nat) : list byte :=
  let n := (IPv6len - i)%nat in
  let moved :=
    foldl (fun (a : list byte) (j : nat) => <[(j + n)%nat := a !!! j]> a) ip
          (reverse (seq e (i - e))) in
  foldl (fun (a : list byte) (j : nat) => <[j := x00]> a) moved
        (reverse (seq e n)).

Definition parseIPv6 (s : string) : IP :=
  let ip0 := replicate IPv6len x00 in
  let start :=
    match s with
    | String ":" (String ":" rest) => (0, rest, true)
    | _ => (-1, s, false)
    end in
  let '(ellipsis0, s0, leading) := start in
  if leading && (len s0 =? 0)%nat then ip0
  else
    match parseIPv6_loop 9 s0 O ip0 ellipsis0 with
    | None => []
    | Some (s1, i, ip, ellipsis) =>
        if negb (len s1 =? 0)%nat then []
        else if (i <? IPv6len)%nat then
          if ellipsis <? 0 then []
          else expand_ellipsis ip i (Z.to_nat ellipsis)
        else if ellipsis >=? 0 then []
        else ip
    end.

(** [net.ParseIP]: the first dot or colon decides between the two
    parsers; a string with neither is not an address. *)
Fixpoint ParseIP_scan (rest whole : string) : IP :=
  match rest with
  | EmptyString => []
  | String c rest' =>
      if Ascii.eqb c "."%char then parseIPv4 whole
      else if Ascii.eqb c ":"%char then parseIPv6 whole
      else ParseIP_scan rest' whole
  end.

Definition ParseIP (s : string) : IP := ParseIP_scan s s.

(** [net.Addr]: the addresses a devp2p peer can have. A dialled or accepted
    connection is TCP; [p2p.NewPeer] builds its peer over [net.Pipe]. *)
Inductive Addr :=
  | TCPAddr (ip : IP) (Port : Z) (Zone : string)
  | pipeAddr.

(** [Addr.Network()]: the name of the network, not the address. *)
Definition Network (a : Addr) : string :=
  match a with
  | TCPAddr _ _ _ => "tcp"
  | pipeAddr => "pipe"
  end.

End Go.

(* ===================================================================== *)
(** * Package [ratelimiter] *)
(* ===================================================================== *)

Module ratelimiter.
Import Go.

(** ** Declarations of the package that [peer.go] relies on *)

(** Modelled from the spec: [Config], "immutable per-limiter-instance
    parameters: [Interval] (refill period), [Capacity], [Quantum]"; the
    declaration is not in [peer.go]. *)
Record Config := {
  Interval : Z;
  Capacity : Z;
  Quantum : Z
}.

(** A rate limiter method runs against some state [S] (the database, the
    clock, the call log of a mock) and returns its result with the new
    state. *)
Definition M (S A : Type) : Type := S -> A * S.

(** Modelled from the spec: [Interface], the limiter "keyed by an opaque
    identity byte string" with "[Create], [Remove] (optionally blacklisting),
    [TakeAvailable], [Available]"; the declaration is not in [peer.go], the
    signatures are those of its calls. *)
Record Interface (S : Type) := {
  Create : list byte -> Config -> M S error;
  Remove : list byte -> Duration -> M S error;
  TakeAvailable : list byte -> Z -> M S Z;
  Available : list byte -> M S Z
}.
Arguments Create {S}.
Arguments Remove {S}.
Arguments TakeAvailable {S}.
Arguments Available {S}.

(** ** The devp2p peer handle ([p2p.Peer]) *)

(** [discover.NodeID]: 64 bytes of public key. *)
Definition NodeID := list byte.

Record Peer := {
  ID : NodeID;
  RemoteAddr : Addr
}.

(** ** [peer.go] *)

Definition IDMode : Z := 1.
Definition IPMode : Z := 2.

Definition byIP (peer : Peer) : list byte :=
  let addr := Network (RemoteAddr peer) in
  let ip := ParseIP (Split addr ":" !!! O) in
  ip.

Definition byID (peer : Peer) : list byte := ID peer.

Definition modeFunc := Peer -> list byte.

Definition selectFunc (mode : Z) : modeFunc :=
  if mode =? IPMode then byIP else byID.

Record PeerRateLimiter (S : Type) := {
  getID : modeFunc;
  ratelimiter : Interface S
}.
Arguments getID {S}.
Arguments ratelimiter {S}.

Definition NewPeerRateLimiter {S} (mode : Z) (rl : Interface S)
  : PeerRateLimiter S :=
  {| getID := selectFunc mode; ratelimiter := rl |}.

Definition PeerRateLimiter_Create {S} (r : PeerRateLimiter S) (peer : Peer)
    (cfg : Config) : M S error :=
  Create (ratelimiter r) (getID r peer) cfg.

Definition PeerRateLimiter_Remove {S} (r : PeerRateLimiter S) (peer : Peer)
    (duration : Duration) : M S error :=
  Remove (ratelimiter r) (getID r peer) duration.

Definition PeerRateLimiter_TakeAvailable {S} (r : PeerRateLimiter S)
    (peer : Peer) (count : Z) : M S Z :=
  TakeAvailable (ratelimiter r) (getID r peer) count.

Definition PeerRateLimiter_Available {S} (r : PeerRateLimiter S)
    (peer : Peer) : M S Z :=
  Available (ratelimiter r) (getID r peer).

(** ** Bucket engine *)

Module Bucket.

(** Modelled from the spec: the bucket engine of package [ratelimiter],
    whose source is not available. Integers are the spec's integers (no
    wrap-around); [blacklistedUntil] is [None] when absent. *)
Record t := {
  capacity : Z;
  quantum : Z;
  interval : Z;
  tokens : Z;
  lastRefill : Time;
  blacklistedUntil : option Time
}.

Definition with_tokens (b : t) (n : Z) : t :=
  {| capacity := capacity b; quantum := quantum b; interval := interval b;
     tokens := n; lastRefill := lastRefill b;
     blacklistedUntil := blacklistedUntil b |}.

Definition with_lastRefill (b : t) (u : Time) : t :=
  {| capacity := capacity b; quantum := quantum b; interval := interval b;
     tokens := tokens b; lastRefill := u;
     blacklistedUntil := blacklistedUntil b |}.

(** Modelled from the spec: a bucket "at full capacity" for a Config. *)
Definition new (cfg : Config) (now : Time) : t :=
  {| capacity := Capacity cfg; quantum := Quantum cfg;
     interval := Interval cfg; tokens := Capacity cfg; lastRefill := now;
     blacklistedUntil := None |}.

(** Modelled from the spec: "if [now < blacklistedUntil]". *)
Definition blacklisted (b : t) (now : Time) : bool :=
  match blacklistedUntil b with
  | Some until => now <? until
  | None => false
  end.

(** Modelled from the spec: [Refill(bucket, now)] "computes
    [elapsedIntervals = floor((now - lastRefill) / interval)]; if >= 1, adds
    [elapsedIntervals * quantum] tokens capped at [capacity], advances
    [lastRefill] by [elapsedIntervals * interval]. No-op if
    [elapsedIntervals == 0]." A zero interval, which the spec calls a
    configuration error, gives zero elapsed intervals here. *)
Definition Refill (b : t) (now : Time) : t :=
  let elapsedIntervals := (now - lastRefill b) / interval b in
  if 1 <=? elapsedIntervals then
    with_lastRefill
      (with_tokens b
         (Z.min (capacity b) (tokens b + elapsedIntervals * quantum b)))
      (lastRefill b + elapsedIntervals * interval b)
  else b.

(** Modelled from the spec: [TakeAvailable(bucket, amount, now)] "refills
    first; then [taken = min(amount, tokens)]; [tokens -= taken]; returns
    [taken]", and "blacklist check precedes refill: if
    [now < blacklistedUntil], [TakeAvailable] returns 0 ... without mutating
    [tokens]/[lastRefill]". *)
Definition TakeAvailable (b : t) (amount : Z) (now : Time) : Z * t :=
  if blacklisted b now then (0, b)
  else
    let b1 := Refill b now in
    let taken := Z.min amount (tokens b1) in
    (taken, with_tokens b1 (tokens b1 - taken)).

(** Modelled from the spec: [Available(bucket, now)] "refills, returns
    [tokens] without debiting"; 0 while blacklisted. *)
Definition Available (b : t) (now : Time) : Z * t :=
  if blacklisted b now then (0, b)
  else let b1 := Refill b now in (tokens b1, b1).

(** The operations the invariant ranges over. *)
Inductive op :=
  | OpTakeAvailable (amount : Z) (now : Time)
  | OpAvailable (now : Time)
  | OpRefill (now : Time).

Definition step (b : t) (o : op) : t :=
  match o with
  | OpTakeAvailable amount now => snd (TakeAvailable b amount now)
  | OpAvailable now => snd (Available b now)
  | OpRefill now => Refill b now
  end.

Definition run (b : t) (ops : list op) : t := foldl step b ops.

(** [0 <= tokens <= capacity]. *)
Definition inv (b : t) : Prop := 0 <= tokens b <= capacity b.

(** The amount of a [TakeAvailable] is a count of bytes (the size of a
    message or a batch): it is not negative. *)
Definition op_nonneg (o : op) : Prop :=
  match o with
  | OpTakeAvailable amount _ => 0 <= amount
  | _ => True
  end.

End Bucket.

(** ** Persistence store *)

(** Modelled from the spec: what the store holds for an identity, "one
    serialized bucket record" or "an expiry-timestamp record ...
    distinguishable by record tag/shape from a live bucket record". The
    byte encoding of the records is left out. *)
Inductive record :=
  | BucketRecord (b : Bucket.t)
  | BlacklistRecord (expiry : Time).

(** The contents of the one physical database. *)
Abbreviation DB := (gmap (list byte) record).

(** Modelled from the spec: [DBInterface], the store contract
    "[Get(key) -> (value, found)], [Put(key, value)], [Delete(key)]". A
    value of this type is a handle; the contents it reads and writes are
    passed along. *)
Record DBInterface := {
  Get : list byte -> DB -> option record;
  Put : list byte -> record -> DB -> DB;
  Delete : list byte -> DB -> DB
}.

(** The handle of the database itself (the tests open an in-memory
    LevelDB). *)
Definition memDB : DBInterface :=
  {| Get := fun key d => d !! key;
     Put := fun key v d => <[key := v]> d;
     Delete := fun key d => delete key d |}.

(** Modelled from the spec: [WithPrefix(db, prefix)], a handle "operating
    over byte-string keys within a caller-chosen prefix": every key is
    prefixed before it reaches [db]. *)
Definition WithPrefix (db : DBInterface) (prefix : list byte) : DBInterface :=
  {| Get := fun key => Get db (prefix ++ key);
     Put := fun key v => Put db (prefix ++ key) v;
     Delete := fun key => Delete db (prefix ++ key) |}.

(** What a persisted limiter runs against: the clock it reads and the
    database it shares. *)
Record World := {
  clock : Time;
  disk : DB
}.

Definition with_disk (w : World) (d : DB) : World :=
  {| clock := clock w; disk := d |}.

Definition at_time (now : Time) (w : World) : World :=
  {| clock := now; disk := disk w |}.

(** ** Persisted rate limiter *)

(** What a limiter finds for an identity. *)
Inductive entry :=
  | Blacklisted
  | Live (b : Bucket.t)
  | Absent.

Section Persisted.

(** Modelled from the spec: the "default config" of a bucket created on
    first access. [NewPersisted] is not handed one in [peer.go], so it stays
    a parameter. *)
Variable defaultConfig : Config.

Variable db : DBInterface.

(** Modelled from the spec: loading an identity. A blacklist entry counts
    "while [now < expiry]"; an expired one is as good as none. *)
Definition load (id : list byte) (w : World) : entry :=
  match Get db id (disk w) with
  | Some (BlacklistRecord expiry) =>
      if clock w <? expiry then Blacklisted else Absent
  | Some (BucketRecord b) => Live b
  | None => Absent
  end.

(** Modelled from the spec: "persists the new state". *)
Definition persist (id : list byte) (b : Bucket.t) (w : World) : World :=
  with_disk w (Put db id (BucketRecord b) (disk w)).

(** Modelled from the spec: [Create(identity, config)] "initializes a
    bucket for [identity] at full capacity if none exists; if a blacklist
    entry is active, this is a no-op"; "re-create does not reset
    accumulated tokens". *)
Definition Persisted_Create (id : list byte) (cfg : Config) : M World error :=
  fun w =>
    match load id w with
    | Absent => (None, persist id (Bucket.new cfg (clock w)) w)
    | Live _ => (None, w)
    | Blacklisted => (None, w)
    end.

(** Modelled from the spec: [Remove(identity, duration)] "deletes the
    bucket; if [duration > 0], additionally installs a blacklist entry
    expiring at [now + duration]". *)
Definition Persisted_Remove (id : list byte) (duration : Duration)
  : M World error :=
  fun w =>
    let d1 := Delete db id (disk w) in
    let d2 :=
      if 0 <? duration
      then Put db id (BlacklistRecord (clock w + duration)) d1
      else d1 in
    (None, with_disk w d2).

(** Modelled from the spec: [TakeAvailable(identity, amount)] "loads (or
    lazily creates with default config) the bucket, applies Bucket Engine
    [TakeAvailable], persists the new state, returns tokens actually
    taken"; zero for a blacklisted identity. *)
Definition Persisted_TakeAvailable (id : list byte) (amount : Z) : M World Z :=
  fun w =>
    match load id w with
    | Blacklisted => (0, w)
    | Live b =>
        let '(taken, b') := Bucket.TakeAvailable b amount (clock w) in
        (taken, persist id b' w)
    | Absent =>
        let '(taken, b') :=
          Bucket.TakeAvailable (Bucket.new defaultConfig (clock w)) amount
                               (clock w) in
        (taken, persist id b' w)
    end.

(** Modelled from the spec: [Available(identity)] "same load path, Bucket
    Engine [Available], persists refill side effect, returns current
    balance". *)
Definition Persisted_Available (id : list byte) : M World Z :=
  fun w =>
    match load id w with
    | Blacklisted => (0, w)
    | Live b =>
        let '(n, b') := Bucket.Available b (clock w) in (n, persist id b' w)
    | Absent =>
        let '(n, b') :=
          Bucket.Available (Bucket.new defaultConfig (clock w)) (clock w) in
        (n, persist id b' w)
    end.

(** Modelled from the spec: [NewPersisted(db)], the rate limiter over a
    store. *)
Definition NewPersisted : Interface World :=
  {| Create := Persisted_Create;
     Remove := Persisted_Remove;
     TakeAvailable := Persisted_TakeAvailable;
     Available := Persisted_Available |}.

End Persisted.

(** ** [peer.go], continued: the direction wrapper *)

Record Whisper (S : Type) := {
  Ingress : PeerRateLimiter S;
  Egress : PeerRateLimiter S;
  Whisper_Config : Config
}.
Arguments Ingress {S}.
Arguments Egress {S}.
Arguments Whisper_Config {S}.

(** [[]byte("i")] and [[]byte("e")]. *)
Definition prefix_i : list byte := list_byte_of_string "i".
Definition prefix_e : list byte := list_byte_of_string "e".

Section ForWhisper.

Variable defaultConfig : Config.

Definition ForWhisper (mode : Z) (db : DBInterface) (ingress : Config)
  : Whisper World :=
  {| Ingress :=
       NewPeerRateLimiter mode
         (NewPersisted defaultConfig (WithPrefix db prefix_i));
     Egress :=
       NewPeerRateLimiter mode
         (NewPersisted defaultConfig (WithPrefix db prefix_e));
     Whisper_Config := ingress |}.

End ForWhisper.

(** A call of one of the four methods, and running it on a peer limiter. *)
Inductive call :=
  | CallCreate (peer : Peer) (cfg : Config)
  | CallRemove (peer : Peer) (duration : Duration)
  | CallTakeAvailable (peer : Peer) (count : Z)
  | CallAvailable (peer : Peer).

Inductive result :=
  | RError (e : error)
  | RCount (n : Z).

Definition perform {S} (r : PeerRateLimiter S) (c : call) : M S result :=
  fun st =>
    match c with
    | CallCreate peer cfg =>
        let '(e, st') := PeerRateLimiter_Create r peer cfg st in (RError e, st')
    | CallRemove peer duration =>
        let '(e, st') := PeerRateLimiter_Remove r peer duration st in
        (RError e, st')
    | CallTakeAvailable peer count =>
        let '(n, st') := PeerRateLimiter_TakeAvailable r peer count st in
        (RCount n, st')
    | CallAvailable peer =>
        let '(n, st') := PeerRateLimiter_Available r peer st in (RCount n, st')
    end.

(** The clock moves to [now], then the call runs. *)
Definition perform_at (r : PeerRateLimiter World)
    (now : Time) (c : call) : M World result :=
  fun w => perform r c (at_time now w).

(** The same on a limiter keyed by identity bytes. *)
Inductive icall :=
  | ICreate (id : list byte) (cfg : Config)
  | IRemove (id : list byte) (duration : Duration)
  | ITakeAvailable (id : list byte) (count : Z)
  | IAvailable (id : list byte).

Definition icall_id (c : icall) : list byte :=
  match c with
  | ICreate id _ | IRemove id _ | ITakeAvailable id _ | IAvailable id => id
  end.

Definition iperform {S} (rl : Interface S) (c : icall) : M S result :=
  fun st =>
    match c with
    | ICreate id cfg => let '(e, st') := Create rl id cfg st in (RError e, st')
    | IRemove id duration =>
        let '(e, st') := Remove rl id duration st in (RError e, st')
    | ITakeAvailable id count =>
        let '(n, st') := TakeAvailable rl id count st in (RCount n, st')
    | IAvailable id => let '(n, st') := Available rl id st in (RCount n, st')
    end.

(** The identity-level call a peer-level call turns into. *)
Definition to_icall (getID : modeFunc) (c : call) : icall :=
  match c with
  | CallCreate peer cfg => ICreate (getID peer) cfg
  | CallRemove peer duration => IRemove (getID peer) duration
  | CallTakeAvailable peer count => ITakeAvailable (getID peer) count
  | CallAvailable peer => IAvailable (getID peer)
  end.

(** A run of timed calls on a persisted limiter: the world after it. *)
Definition run_at (rl : Interface World) (steps : list (Time * icall))
    (w : World) : World :=
  foldl (fun w' step => snd (iperform rl (snd step) (at_time (fst step) w')))
        w steps.

Definition run_peer_at (r : PeerRateLimiter World)
    (steps : list (Time * call)) (w : World) : World :=
  foldl (fun w' step => snd (perform_at r (fst step) (snd step) w')) w steps.

(** The mock limiter of [peer_test.go]: it keeps the calls it receives. *)
Definition mock : Interface (list icall) :=
  {| Create := fun id cfg log => (None, log ++ [ICreate id cfg]);
     Remove := fun id duration log => (None, log ++ [IRemove id duration]);
     TakeAvailable := fun id count log => (0, log ++ [ITakeAvailable id count]);
     Available := fun id log => (0, log ++ [IAvailable id]) |}.

(** A list of calls run one after the other: the results in order and the
    state left. *)
Fixpoint perform_all {S} (r : PeerRateLimiter S) (cs : list call) (st : S)
  : list result * S :=
  match cs with
  | [] => ([], st)
  | c :: cs' =>
      let '(x, st1) := perform r c st in
      let '(xs, st2) := perform_all r cs' st1 in
      (x :: xs, st2)
  end.

Fixpoint iperform_all {S} (rl : Interface S) (cs : list icall) (st : S)
  : list result * S :=
  match cs with
  | [] => ([], st)
  | c :: cs' =>
      let '(x, st1) := iperform rl c st in
      let '(xs, st2) := iperform_all rl cs' st1 in
      (x :: xs, st2)
  end.

(** ** Properties the statements below are phrased with *)

(** A database handle behaves as a map from keys to records. *)
Record LawfulDB (db : DBInterface) : Prop := {
  get_put_eq : forall k v d, Get db k (Put db k v d) = Some v;
  get_put_ne : forall k k' v d,
    k <> k' -> Get db k' (Put db k v d) = Get db k' d;
  get_delete_eq : forall k d, Get db k (Delete db k d) = None;
  get_delete_ne : forall k k' d,
    k <> k' -> Get db k' (Delete db k d) = Get db k' d
}.

(** Two database contents look the same through a handle. *)
Definition same_view (db : DBInterface) (d d' : DB) : Prop :=
  forall k, Get db k d = Get db k d'.

(** What a method may do to the database through its handle: nothing, or
    a write, a delete, or a delete and a write, all at one key. *)
Inductive touches (h : DBInterface) (k : list byte) (d : DB) : DB -> Prop :=
  | touches_nothing : touches h k d d
  | touches_put v : touches h k d (Put h k v d)
  | touches_delete : touches h k d (Delete h k d)
  | touches_delete_put v : touches h k d (Put h k v (Delete h k d)).

(** A step that falls in the blacklist window of [id] and is not itself a
    [Remove] of [id]. *)
Definition in_window (id : list byte) (expiry : Time)
    (step : Time * icall) : Prop :=
  fst step < expiry /\
  match snd step with
  | IRemove id' _ => id' <> id
  | _ => True
  end.

(** ** Fixtures of the tests *)

(** The Config of [ratelimit_test.go]: one hour, 10 KiB, 1 KiB. *)
Definition testConfig : Config :=
  {| Interval := Hour; Capacity := 10 * 1024; Quantum := 1024 |}.

(** The peer of [peer_test.go]: [p2p.NewPeer(discover.NodeID{1}, ...)]. *)
Definition testPeer : Peer :=
  {| ID := x01 :: replicate 63 x00; RemoteAddr := pipeAddr |}.

End ratelimiter.

(* ===================================================================== *)
(** * Package [libp2p] *)
(* ===================================================================== *)

Module libp2p.
Import Go.

(** ** What the adapter takes from its libraries *)

(** [discover.NodeID]. *)
Definition NodeID := list byte.

(** [ecdsa.PublicKey]: a point of the curve. *)
Record ecdsa_PublicKey := {
  X : Z;
  Y : Z
}.

(** [crypto.PubKey]: the key types of go-libp2p-crypto, or a nil
    interface. A key is a value; a nil pointer of a key type is not one. *)
Inductive PubKey :=
  | nilPubKey
  | RsaPublicKey (k : list byte)
  | Ed25519PublicKey (k : list byte)
  | Secp256k1PublicKey (k : ecdsa_PublicKey).

Definition is_secp256k1 (pubkey : PubKey) : bool :=
  match pubkey with
  | Secp256k1PublicKey _ => true
  | _ => false
  end.

(** Big-endian bytes of fixed width. *)
Fixpoint be_bytes (width : nat) (z : Z) : list byte :=
  match width with
  | O => []
  | S width' => byte_of_Z (Z.shiftr z (8 * Z.of_nat width')) :: be_bytes width' z
  end.

(** [discover.PubkeyID]: the two coordinates, 32 bytes each (the marshalled
    point without its format byte). *)
Definition PubkeyID (pub : ecdsa_PublicKey) : NodeID :=
  be_bytes 32 (X pub) ++ be_bytes 32 (Y pub).

(** [net.Stream], as far as [Handle] looks into it. *)
Record net_Conn := {
  RemotePublicKey : PubKey
}.

Record net_Stream := {
  Conn : net_Conn
}.

(** [rlp.NewStream(r, inputLimit)]. *)
Record rlp_Stream := {
  rlp_reader : net_Stream;
  rlp_inputLimit : Z
}.

Definition rlp_NewStream (r : net_Stream) (inputLimit : Z) : rlp_Stream :=
  {| rlp_reader := r; rlp_inputLimit := inputLimit |}.

Record Stream := {
  s : net_Stream;
  rlp : rlp_Stream;
  readTimeout : Duration;
  writeTimeout : Duration
}.

(** ** [sync/atomic]: the cells behind [*atomic.Value] *)

(** A cell holds [None] until the first [Store]; this code stores nothing
    but [time.Time] values. Cells live in a heap, and a [connection] holds
    the address of its cell, so copies of a [connection] share it. *)
Abbreviation heap := (gmap nat (option Time)).

(** [new(atomic.Value)] *)
Definition new_Value (h : heap) : nat * heap :=
  let l := fresh (dom h) in (l, <[l := None]> h).

(** [v.Load()]: [None] is the nil interface, what a cell gives before its
    first [Store]. A connection holds the address of a cell of the heap. *)
Definition Load (l : nat) (h : heap) : option Time :=
  match h !! l with
  | Some v => v
  | None => None
  end.

(** [v.Store(t)] *)
Definition Store (l : nat) (t : Time) (h : heap) : heap := <[l := Some t]> h.

(** ** The adapter *)

Record connection := {
  id : NodeID;
  received : nat;
  period : Duration
}.

Definition connection_ID (c : connection) : NodeID := id c.

(** The failed type assertion is logged and reported as not flaky; the
    log is not kept. *)
Definition connection_IsFlaky (c : connection) (now : Time) (h : heap) : bool :=
  if period c =? 0 then false
  else
    match Load (received c) h with
    | Some received => Since now received >? period c
    | None => false
    end.

Definition connection_Update (c : connection) (t : Time) (h : heap) : heap :=
  Store (received c) t h.

Definition errNotSecp256k1 : error :=
  Some "public key is not on the secp256k1 curve"%string.

(** The zero [NodeID], the value of the named result [n] on the error
    path. *)
Definition zeroNodeID : NodeID := replicate 64 x00.

Definition PubKeyToNodeID (pubkey : PubKey) : NodeID * error :=
  match pubkey with
  | Secp256k1PublicKey seckey => (PubkeyID seckey, None)
  | _ => (zeroNodeID, errNotSecp256k1)
  end.

(** What [Handle] runs against: the heap of cells and the state of the
    messaging engine, rate limiters included. *)
Record World (E : Type) := {
  cells : heap;
  engine : E
}.
Arguments cells {E}.
Arguments engine {E}.

Definition with_cells {E} (w : World E) (h : heap) : World E :=
  {| cells := h; engine := engine w |}.

(** [*whisperv6.Whisper]: the engine is outside this package; [Handle]
    calls its [HandleConnection] only. *)
Record Whisper (E : Type) := {
  HandleConnection : connection -> Stream -> World E -> error * World E
}.
Arguments HandleConnection {E}.

Definition Handle {E} (w : Whisper E) (s : net_Stream)
    (period read write : Duration) (st : World E) : error * World E :=
  match PubKeyToNodeID (RemotePublicKey (Conn s)) with
  | (_, Some err) => (Some err, st)
  | (id, None) =>
      let '(cell, h1) := new_Value (cells st) in
      let conn := {| id := id; period := period; received := cell |} in
      let h2 := connection_Update conn zeroTime h1 in
      HandleConnection w conn
        {| s := s; rlp := rlp_NewStream s 0;
           readTimeout := read; writeTimeout := write |}
        (with_cells st h2)
  end.

(** The connection [Handle] makes for identity [id] on heap [h], and the
    heap it leaves. *)
Definition fresh_connection (id : NodeID) (period : Duration) (h : heap)
  : connection * heap :=
  let '(cell, h1) := new_Value h in
  let conn := {| id := id; period := period; received := cell |} in
  (conn, connection_Update conn zeroTime h1).

(** An engine that does nothing but keep a record of the connections it is
    handed, with the cells as they were at the call. *)
Definition recording : Whisper (list (connection * Stream * heap)) :=
  {| HandleConnection := fun conn stream st =>
       (None, {| cells := cells st;
                 engine := engine st ++ [(conn, stream, cells st)] |}) |}.

End libp2p.

(* ===================================================================== *)
(** * Properties *)
(* ===================================================================== *)

Import Go.

(** ** Identity extractors and the peer adapter ([peer.go]) *)

Section PeerProperties.
Import ratelimiter.

(** A split always has a first piece: the index [[0]] is in range. *)
Lemma Split_from_first cur s sep : is_Some (Split_from cur s sep !! O).
Proof.
  revert cur. induction s as [| c s IH]; intros cur; simpl; [eexists; reflexivity |].
  destruct (Ascii.eqb c sep); [eexists; reflexivity | apply IH].
Qed.

(** The first piece of a split holds no separator. *)
Lemma Split_from_head_no_sep cur s sep :
  (forall c, String.get c cur <> Some sep) ->
  forall n, String.get n (Split_from cur s sep !!! O) <> Some sep.
Proof.
  revert cur. induction s as [| c s IH]; intros cur Hcur n; simpl.
  - apply Hcur.
  - destruct (Ascii.eqb c sep) eqn:E; [apply Hcur |].
    apply IH. intros k.
    apply Ascii.eqb_neq in E.
    revert k. induction cur as [| a cur IHc]; intros k; simpl.
    + destruct k; simpl; [congruence | discriminate].
    + destruct k; simpl.
      * specialize (Hcur O). simpl in Hcur. exact Hcur.
      * apply IHc. intros j. specialize (Hcur (S j)). exact Hcur.
Qed.

(** [ParseIP] never reaches the IPv6 parser on a string without a colon,
    which is all [byIP] hands it. *)
Lemma ParseIP_scan_no_colon rest whole :
  (forall n, String.get n rest <> Some ":"%char) ->
  ParseIP_scan rest whole = [] \/ ParseIP_scan rest whole = parseIPv4 whole.
Proof.
  induction rest as [| c rest IH]; intros H; simpl; [left; reflexivity |].
  destruct (Ascii.eqb c ".") eqn:E1; [right; reflexivity |].
  destruct (Ascii.eqb c ":") eqn:E2.
  - apply Ascii.eqb_eq in E2. subst c. specialize (H O). simpl in H. congruence.
  - apply IH. intros n. specialize (H (S n)). exact H.
Qed.

Lemma byIP_parse_stage (addr : string) :
  ParseIP (Split addr ":" !!! O) = [] \/
  ParseIP (Split addr ":" !!! O) = parseIPv4 (Split addr ":" !!! O).
Proof.
  unfold ParseIP. apply ParseIP_scan_no_colon.
  unfold Split. apply Split_from_head_no_sep.
  intros c. destruct c; discriminate.
Qed.

(** What the same pipeline gives on a host:port string: the address, port
    stripped. *)
Example split_parse_host_port :
  ParseIP (Split "192.0.2.1:30303" ":" !!! O) = IPv4 xc0 x00 x02 x01.
Proof. reflexivity. Qed.

(** C1. [byIP] reads [Network()], the name of the network ("tcp"), where
    the address would be [String()]; the name parses to no address, so
    [byIP] returns the empty identity for every peer, whatever its source
    IP. *)
Theorem byIP_returns_no_address (peer : Peer) : byIP peer = [].
Proof.
  unfold byIP. destruct peer as [i [ip port zone |]]; reflexivity.
Qed.

(** At a TCP peer from 192.0.2.1:30303 the key is empty, not the
    address, and a peer from another address gets the same key. *)
Example byIP_at_tcp_peer :
  let a := {| ID := [x01]; RemoteAddr := TCPAddr [xc0; x00; x02; x01] 30303 "" |} in
  let b := {| ID := [x02]; RemoteAddr := TCPAddr [xc6; x33; x64; x07] 30303 "" |} in
  byIP a = [] /\ byIP a <> [xc0; x00; x02; x01] /\
  byIP a <> IPv4 xc0 x00 x02 x01 /\ byIP a = byIP b.
Proof. repeat split; discriminate. Qed.

(** C5. Each of the four methods of [PeerRateLimiter] is the wrapped
    limiter's method of the same name at the identity the extractor gives
    for the peer, result and state alike; and a [PeerRateLimiter] is its
    extractor and its wrapped limiter, nothing else. *)
Theorem PeerRateLimiter_delegates {S : Type} (r : PeerRateLimiter S)
    (peer : Peer) (cfg : Config) (duration : Duration) (count : Z) (st : S) :
  PeerRateLimiter_Create r peer cfg st
    = Create (ratelimiter r) (getID r peer) cfg st /\
  PeerRateLimiter_Remove r peer duration st
    = Remove (ratelimiter r) (getID r peer) duration st /\
  PeerRateLimiter_TakeAvailable r peer count st
    = TakeAvailable (ratelimiter r) (getID r peer) count st /\
  PeerRateLimiter_Available r peer st
    = Available (ratelimiter r) (getID r peer) st /\
  r = {| getID := getID r; ratelimiter := ratelimiter r |}.
Proof.
  repeat split. destruct r; reflexivity.
Qed.

Lemma perform_to_icall {S : Type} (r : PeerRateLimiter S) (c : call) (st : S) :
  perform r c st = iperform (ratelimiter r) (to_icall (getID r) c) st.
Proof. destruct c; reflexivity. Qed.

(** [TestIDMode] of [peer_test.go]: in ID mode the mock sees the four calls
    with the bytes of the peer's ID. *)
Example TestIDMode :
  let cfg := {| Interval := 0; Capacity := 0; Quantum := 0 |} in
  let peer := {| ID := x01 :: replicate 63 x00; RemoteAddr := pipeAddr |} in
  let peerrl := NewPeerRateLimiter IDMode mock in
  let '(e1, l1) := PeerRateLimiter_Create peerrl peer cfg [] in
  let '(_, l2) := PeerRateLimiter_TakeAvailable peerrl peer 0 l1 in
  let '(_, l3) := PeerRateLimiter_Available peerrl peer l2 in
  let '(e4, l4) := PeerRateLimiter_Remove peerrl peer 0 l3 in
  e1 = None /\ e4 = None /\
  l4 = [ICreate (ID peer) cfg; ITakeAvailable (ID peer) 0;
        IAvailable (ID peer); IRemove (ID peer) 0].
Proof. repeat split. Qed.

(** The two extractors differ: a peer with a non-empty ID tells them
    apart. *)
Lemma byIP_byID_differ : byIP <> byID.
Proof.
  intros H.
  pose (p := {| ID := [x01]; RemoteAddr := pipeAddr |}).
  assert (E : byIP p = byID p) by (rewrite H; reflexivity).
  discriminate E.
Qed.

(** C6. The extractor is chosen by the mode alone, at construction:
    [IPMode] gives [byIP], every other integer gives [byID], [IDMode]
    among them. *)
Theorem selectFunc_by_mode {S : Type} (mode : Z) (rl : Interface S) :
  getID (NewPeerRateLimiter mode rl) = selectFunc mode /\
  selectFunc IPMode = byIP /\
  selectFunc IDMode = byID /\
  (mode <> IPMode -> selectFunc mode = byID).
Proof.
  repeat split.
  intros H. unfold selectFunc.
  destruct (mode =? IPMode) eqn:E; [| reflexivity].
  apply Z.eqb_eq in E. contradiction.
Qed.

Lemma selectFunc_by_mode_witness :
  (7 <> IPMode) /\ selectFunc 7 = byID /\ selectFunc 0 = byID /\
  selectFunc (-1) = byID.
Proof.
  split; [discriminate |].
  split; [| split].
  - apply (proj2 (proj2 (proj2 (selectFunc_by_mode 7 mock)))). discriminate.
  - apply (proj2 (proj2 (proj2 (selectFunc_by_mode 0 mock)))). discriminate.
  - apply (proj2 (proj2 (proj2 (selectFunc_by_mode (-1) mock)))). discriminate.
Defined.

End PeerProperties.

(** ** Bucket engine *)

Section BucketProperties.
Import ratelimiter.

Lemma Refill_fields (b : Bucket.t) (now : Time) :
  Bucket.capacity (Bucket.Refill b now) = Bucket.capacity b /\
  Bucket.quantum (Bucket.Refill b now) = Bucket.quantum b /\
  Bucket.interval (Bucket.Refill b now) = Bucket.interval b /\
  Bucket.blacklistedUntil (Bucket.Refill b now) = Bucket.blacklistedUntil b.
Proof.
  unfold Bucket.Refill.
  destruct (1 <=? (now - Bucket.lastRefill b) / Bucket.interval b);
    repeat split.
Qed.

Lemma step_fields (b : Bucket.t) (o : Bucket.op) :
  Bucket.capacity (Bucket.step b o) = Bucket.capacity b /\
  Bucket.quantum (Bucket.step b o) = Bucket.quantum b.
Proof.
  destruct o as [amount now | now | now]; simpl.
  - unfold Bucket.TakeAvailable.
    destruct (Bucket.blacklisted b now); simpl; [split; reflexivity |].
    destruct (Refill_fields b now) as (Hc & Hq & _). split; assumption.
  - unfold Bucket.Available.
    destruct (Bucket.blacklisted b now); simpl; [split; reflexivity |].
    destruct (Refill_fields b now) as (Hc & Hq & _). split; assumption.
  - destruct (Refill_fields b now) as (Hc & Hq & _). split; assumption.
Qed.

(** A refill never takes tokens away and never passes the capacity. *)
Lemma Refill_inv (b : Bucket.t) (now : Time) :
  0 <= Bucket.quantum b -> Bucket.inv b -> Bucket.inv (Bucket.Refill b now).
Proof.
  unfold Bucket.inv, Bucket.Refill. intros Hq [Hlo Hhi].
  destruct (1 <=? (now - Bucket.lastRefill b) / Bucket.interval b) eqn:E;
    simpl; [| lia].
  apply Z.leb_le in E.
  assert (0 <= (now - Bucket.lastRefill b) / Bucket.interval b
               * Bucket.quantum b) by nia.
  lia.
Qed.

Lemma step_inv (b : Bucket.t) (o : Bucket.op) :
  0 <= Bucket.quantum b -> Bucket.op_nonneg o -> Bucket.inv b ->
  Bucket.inv (Bucket.step b o).
Proof.
  intros Hq Ho Hb.
  destruct o as [amount now | now | now]; simpl in *.
  - unfold Bucket.TakeAvailable.
    destruct (Bucket.blacklisted b now); simpl; [exact Hb |].
    pose proof (Refill_inv b now Hq Hb) as Hr.
    destruct (Refill_fields b now) as (Hc & _).
    unfold Bucket.inv in *. simpl. lia.
  - unfold Bucket.Available.
    destruct (Bucket.blacklisted b now); simpl;
      [exact Hb | apply Refill_inv; assumption].
  - apply Refill_inv; assumption.
Qed.

Lemma run_inv (ops : list Bucket.op) (b : Bucket.t) :
  0 <= Bucket.quantum b -> Forall Bucket.op_nonneg ops -> Bucket.inv b ->
  Bucket.inv (Bucket.run b ops).
Proof.
  revert b. induction ops as [| o ops IH]; intros b Hq Hops Hb; [exact Hb |].
  inversion Hops as [| ? ? Ho Hrest]; subst.
  unfold Bucket.run. simpl. apply IH; [| exact Hrest |].
  - destruct (step_fields b o) as [_ ->]. exact Hq.
  - apply step_inv; assumption.
Qed.

(** C2. From a bucket with [0 <= tokens <= capacity] and a quantum that is
    not negative, as the data model has them, every run of [TakeAvailable],
    [Available] and refills keeps [0 <= tokens <= capacity], after each of
    its steps: tokens never go negative and no refill passes the capacity.
    The amount of a [TakeAvailable] is a count of bytes, so not negative. *)
Theorem tokens_within_capacity (b : Bucket.t) (ops : list Bucket.op) :
  Bucket.inv b -> 0 <= Bucket.quantum b -> Forall Bucket.op_nonneg ops ->
  forall k : nat, Bucket.inv (Bucket.run b (take k ops)).
Proof.
  intros Hb Hq Hops k. apply run_inv; [exact Hq | | exact Hb].
  apply Forall_take. exact Hops.
Qed.

Lemma tokens_within_capacity_witness :
  let cfg := {| Interval := Hour; Capacity := 10240; Quantum := 1024 |} in
  let ops := [Bucket.OpTakeAvailable (11 * 1024) 5;
              Bucket.OpRefill (Hour - 1); Bucket.OpAvailable Hour;
              Bucket.OpTakeAvailable 0 (2 * Hour);
              Bucket.OpRefill (200 * Hour)] in
  Bucket.inv (Bucket.run (Bucket.new cfg 0) (take 5 ops)).
Proof.
  cbv zeta.
  apply (tokens_within_capacity
           (Bucket.new {| Interval := Hour; Capacity := 10240; Quantum := 1024 |} 0)).
  - unfold Bucket.inv. simpl. lia.
  - simpl. lia.
  - repeat constructor; simpl; lia.
Defined.

(** The refill example of the spec: quantum 1024, interval 1h, capacity
    10240; an empty bucket gains nothing in 59 minutes, 1024 after one
    hour, and stops at 10240. *)
Example Refill_quantized :
  let b := Bucket.with_tokens
             (Bucket.new {| Interval := Hour; Capacity := 10240; Quantum := 1024 |} 0) 0 in
  Bucket.tokens (Bucket.Refill b (59 * 60 * Second)) = 0 /\
  Bucket.tokens (Bucket.Refill b Hour) = 1024 /\
  Bucket.tokens (Bucket.Refill b (1000 * Hour)) = 10240.
Proof. repeat split. Qed.

End BucketProperties.

(** ** Persistence store and persisted limiter *)

Section StoreProperties.
Import ratelimiter.

Lemma memDB_lawful : LawfulDB memDB.
Proof.
  split; simpl; intros.
  - apply lookup_insert_eq.
  - apply lookup_insert_ne. assumption.
  - apply lookup_delete_eq.
  - apply lookup_delete_ne. assumption.
Qed.

Lemma WithPrefix_lawful (db : DBInterface) (prefix : list byte) :
  LawfulDB db -> LawfulDB (WithPrefix db prefix).
Proof.
  intros [Hpe Hpn Hde Hdn]. split; simpl; intros.
  - apply Hpe.
  - apply Hpn. intros E. apply app_inv_head in E. contradiction.
  - apply Hde.
  - apply Hdn. intros E. apply app_inv_head in E. contradiction.
Qed.

(** Keys under "i" and keys under "e" never meet. *)
Lemma prefixes_disjoint (k k' : list byte) : prefix_i ++ k <> prefix_e ++ k'.
Proof. unfold prefix_i, prefix_e. simpl. intros E. discriminate E. Qed.

Lemma touches_WithPrefix (db : DBInterface) (prefix k : list byte) (d d' : DB) :
  touches (WithPrefix db prefix) k d d' -> touches db (prefix ++ k) d d'.
Proof.
  intros H. inversion H; subst.
  - apply touches_nothing.
  - exact (touches_put db (prefix ++ k) d v).
  - exact (touches_delete db (prefix ++ k) d).
  - exact (touches_delete_put db (prefix ++ k) d v).
Qed.

Lemma touches_other_key (db : DBInterface) (k k' : list byte) (d d' : DB) :
  LawfulDB db -> touches db k d d' -> k <> k' -> Get db k' d' = Get db k' d.
Proof.
  intros [Hpe Hpn Hde Hdn] H Hne. inversion H; subst.
  - reflexivity.
  - apply Hpn. exact Hne.
  - apply Hdn. exact Hne.
  - rewrite Hpn by exact Hne. apply Hdn. exact Hne.
Qed.

Lemma same_view_refl (db : DBInterface) (d : DB) : same_view db d d.
Proof. intros k. reflexivity. Qed.

Lemma same_view_trans (db : DBInterface) (d1 d2 d3 : DB) :
  same_view db d1 d2 -> same_view db d2 d3 -> same_view db d1 d3.
Proof. intros H1 H2 k. rewrite H1. apply H2. Qed.

Lemma same_view_Put (db : DBInterface) (k : list byte) (v : record) (d d' : DB) :
  LawfulDB db -> same_view db d d' ->
  same_view db (Put db k v d) (Put db k v d').
Proof.
  intros [Hpe Hpn Hde Hdn] H k0.
  destruct (decide (k = k0)) as [-> | Hne].
  - rewrite !Hpe. reflexivity.
  - rewrite !Hpn by exact Hne. apply H.
Qed.

Lemma same_view_Delete (db : DBInterface) (k : list byte) (d d' : DB) :
  LawfulDB db -> same_view db d d' ->
  same_view db (Delete db k d) (Delete db k d').
Proof.
  intros [Hpe Hpn Hde Hdn] H k0.
  destruct (decide (k = k0)) as [-> | Hne].
  - rewrite !Hde. reflexivity.
  - rewrite !Hdn by exact Hne. apply H.
Qed.

Section OneLimiter.

Variable defaultConfig : Config.
Variable db : DBInterface.

Let rl : Interface World := NewPersisted defaultConfig db.

(** No method moves the clock, and each writes at its own identity
    only. *)
Lemma iperform_effect (c : icall) (w : World) :
  clock (snd (iperform rl c w)) = clock w /\
  touches db (icall_id c) (disk w) (disk (snd (iperform rl c w))).
Proof.
  destruct c as [id cfg | id duration | id count | id]; simpl.
  - unfold Persisted_Create. destruct (load db id w); simpl;
      split; try reflexivity; constructor.
  - unfold Persisted_Remove. destruct (0 <? duration); simpl;
      split; try reflexivity; constructor.
  - unfold Persisted_TakeAvailable. destruct (load db id w); simpl.
    + split; [reflexivity | constructor].
    + destruct (Bucket.TakeAvailable b count (clock w)); simpl.
      split; [reflexivity | constructor].
    + destruct (Bucket.TakeAvailable (Bucket.new defaultConfig (clock w)) count (clock w)); simpl.
      split; [reflexivity | constructor].
  - unfold Persisted_Available. destruct (load db id w); simpl.
    + split; [reflexivity | constructor].
    + destruct (Bucket.Available b (clock w)); simpl.
      split; [reflexivity | constructor].
    + destruct (Bucket.Available (Bucket.new defaultConfig (clock w)) (clock w)); simpl.
      split; [reflexivity | constructor].
Qed.

Hypothesis Hdb : LawfulDB db.

Lemma load_same_view (id : list byte) (w1 w2 : World) :
  clock w1 = clock w2 -> Get db id (disk w1) = Get db id (disk w2) ->
  load db id w1 = load db id w2.
Proof. intros Hc Hg. unfold load. rewrite Hc, Hg. reflexivity. Qed.

(** A method sees the database through its handle only: on two worlds
    that show the same clock and the same view it returns the same result
    and leaves the same view. *)
Lemma iperform_same_view (c : icall) (w1 w2 : World) :
  clock w1 = clock w2 -> same_view db (disk w1) (disk w2) ->
  fst (iperform rl c w1) = fst (iperform rl c w2) /\
  same_view db (disk (snd (iperform rl c w1))) (disk (snd (iperform rl c w2))).
Proof.
  intros Hc Hv.
  destruct c as [id cfg | id duration | id count | id]; simpl.
  - unfold Persisted_Create.
    rewrite (load_same_view id w1 w2 Hc (Hv id)).
    destruct (load db id w2); simpl; split; try reflexivity; try exact Hv.
    rewrite Hc. apply same_view_Put; assumption.
  - unfold Persisted_Remove. rewrite Hc.
    destruct (0 <? duration); simpl; split; try reflexivity.
    + apply same_view_Put; [assumption |].
      apply same_view_Delete; assumption.
    + apply same_view_Delete; assumption.
  - unfold Persisted_TakeAvailable.
    rewrite (load_same_view id w1 w2 Hc (Hv id)). rewrite Hc.
    destruct (load db id w2); simpl.
    + split; [reflexivity | exact Hv].
    + destruct (Bucket.TakeAvailable b count (clock w2)); simpl.
      split; [reflexivity | apply same_view_Put; assumption].
    + destruct (Bucket.TakeAvailable (Bucket.new defaultConfig (clock w2)) count (clock w2)); simpl.
      split; [reflexivity | apply same_view_Put; assumption].
  - unfold Persisted_Available.
    rewrite (load_same_view id w1 w2 Hc (Hv id)). rewrite Hc.
    destruct (load db id w2); simpl.
    + split; [reflexivity | exact Hv].
    + destruct (Bucket.Available b (clock w2)); simpl.
      split; [reflexivity | apply same_view_Put; assumption].
    + destruct (Bucket.Available (Bucket.new defaultConfig (clock w2)) (clock w2)); simpl.
      split; [reflexivity | apply same_view_Put; assumption].
Qed.

(** While the blacklist entry of [id] stands and the clock is before its
    expiry, the three reading methods change nothing. *)
Lemma blacklisted_load (id : list byte) (expiry : Time) (w : World) :
  Get db id (disk w) = Some (BlacklistRecord expiry) -> clock w < expiry ->
  load db id w = Blacklisted.
Proof.
  intros Hg Hlt. unfold load. rewrite Hg.
  destruct (clock w <? expiry) eqn:E; [reflexivity |].
  apply Z.ltb_ge in E. lia.
Qed.

Lemma window_step_keeps_entry (id : list byte) (expiry : Time)
    (step : Time * icall) (w : World) :
  in_window id expiry step ->
  Get db id (disk w) = Some (BlacklistRecord expiry) ->
  Get db id (disk (snd (iperform rl (snd step) (at_time (fst step) w))))
    = Some (BlacklistRecord expiry).
Proof.
  destruct step as [t c]. unfold in_window. simpl. intros [Ht Hc] Hg.
  destruct (decide (icall_id c = id)) as [E | Hne].
  - assert (Hl : load db id (at_time t w) = Blacklisted)
      by (apply (blacklisted_load id expiry); [exact Hg | exact Ht]).
    destruct c as [id' cfg | id' duration | id' count | id'];
      simpl in E; subst id'; simpl.
    + unfold Persisted_Create. rewrite Hl. exact Hg.
    + contradiction.
    + unfold Persisted_TakeAvailable. rewrite Hl. exact Hg.
    + unfold Persisted_Available. rewrite Hl. exact Hg.
  - destruct (iperform_effect c (at_time t w)) as [_ Ht'].
    rewrite (touches_other_key db (icall_id c) id _ _ Hdb Ht' Hne).
    exact Hg.
Qed.

Lemma window_run_keeps_entry (id : list byte) (expiry : Time)
    (steps : list (Time * icall)) (w : World) :
  Forall (in_window id expiry) steps ->
  Get db id (disk w) = Some (BlacklistRecord expiry) ->
  Get db id (disk (run_at rl steps w)) = Some (BlacklistRecord expiry).
Proof.
  revert w. induction steps as [| step steps IH]; intros w Hs Hg; [exact Hg |].
  inversion Hs as [| ? ? Hstep Hrest]; subst.
  unfold run_at. simpl. apply IH; [exact Hrest |].
  apply window_step_keeps_entry; assumption.
Qed.

Lemma Remove_installs_entry (id : list byte) (d : Duration) (w : World) :
  0 < d ->
  Get db id (disk (snd (Remove rl id d w)))
    = Some (BlacklistRecord (clock w + d)).
Proof.
  intros Hd. simpl. unfold Persisted_Remove.
  destruct (0 <? d) eqn:E; [| apply Z.ltb_ge in E; lia].
  simpl. apply (get_put_eq db Hdb).
Qed.

End OneLimiter.

End StoreProperties.

(** ** Blacklisting *)

Section BlacklistProperties.
Import ratelimiter.

(** C3. After [Remove(id, d)] with [d > 0] at time [now0], and after any
    further calls made before the expiry [now0 + d] (on any identity; no
    second [Remove] of [id] among them): a [TakeAvailable(id, amount)]
    before the expiry returns 0 and changes nothing, a [Create(id, cfg)]
    before the expiry changes nothing, and a [Create(id, cfg)] at or
    after the expiry stores a bucket of [cfg] at full capacity. *)
Theorem blacklist_window (defaultConfig : Config) (db : DBInterface)
    (id : list byte) (d : Duration) (now0 : Time) (w : World)
    (steps : list (Time * icall)) :
  LawfulDB db -> 0 < d -> Forall (in_window id (now0 + d)) steps ->
  let rl := NewPersisted defaultConfig db in
  let w2 := run_at rl steps (snd (Remove rl id d (at_time now0 w))) in
  (forall amount now, now < now0 + d ->
     TakeAvailable rl id amount (at_time now w2) = (0, at_time now w2)) /\
  (forall cfg now, now < now0 + d ->
     Create rl id cfg (at_time now w2) = (None, at_time now w2)) /\
  (forall cfg now, now0 + d <= now ->
     let w3 := snd (Create rl id cfg (at_time now w2)) in
     fst (Create rl id cfg (at_time now w2)) = None /\
     Get db id (disk w3) = Some (BucketRecord (Bucket.new cfg now)) /\
     Bucket.tokens (Bucket.new cfg now) = Capacity cfg /\
     fst (Available rl id w3) = Capacity cfg).
Proof.
  intros Hdb Hd Hsteps rl w2.
  assert (Hentry : Get db id (disk w2) = Some (BlacklistRecord (now0 + d))).
  { apply window_run_keeps_entry; [exact Hdb | exact Hsteps |].
    apply (Remove_installs_entry defaultConfig db Hdb id d (at_time now0 w) Hd). }
  split; [| split].
  - intros amount now Hnow. simpl. unfold Persisted_TakeAvailable.
    rewrite (blacklisted_load db id (now0 + d)); [reflexivity | exact Hentry | exact Hnow].
  - intros cfg now Hnow. simpl. unfold Persisted_Create.
    rewrite (blacklisted_load db id (now0 + d)); [reflexivity | exact Hentry | exact Hnow].
  - intros cfg now Hnow. simpl.
    assert (Hl : load db id (at_time now w2) = Absent).
    { unfold load. simpl. rewrite Hentry.
      destruct (now <? now0 + d) eqn:E; [apply Z.ltb_lt in E; lia | reflexivity]. }
    unfold Persisted_Create. rewrite Hl. simpl.
    split; [reflexivity |].
    split; [apply (get_put_eq db Hdb) |].
    split; [reflexivity |].
    unfold Persisted_Available, load. simpl.
    rewrite (get_put_eq db Hdb).
    unfold Bucket.Available, Bucket.blacklisted, Bucket.Refill. simpl.
    rewrite Z.sub_diag. rewrite Zdiv_0_l. simpl. reflexivity.
Qed.

Lemma blacklist_window_witness :
  let id := [x01] in
  let cfg := {| Interval := Hour; Capacity := 10240; Quantum := 1024 |} in
  let rl := NewPersisted cfg memDB in
  let t0 := Unix 1500000000 in
  let w := snd (Create rl id cfg {| clock := t0; disk := ∅ |}) in
  let steps := [(t0 + 1, ITakeAvailable id 100); (t0 + 2, ICreate id cfg);
                (t0 + 3, ICreate [x02] cfg); (t0 + 4, IRemove [x02] Hour);
                (t0 + 5, IAvailable id)] in
  let w2 := run_at rl steps (snd (Remove rl id Hour (at_time t0 w))) in
  TakeAvailable rl id 512 (at_time (t0 + Hour - 1) w2)
    = (0, at_time (t0 + Hour - 1) w2) /\
  Create rl id cfg (at_time (t0 + Hour - 1) w2)
    = (None, at_time (t0 + Hour - 1) w2) /\
  fst (Available rl id (snd (Create rl id cfg (at_time (t0 + Hour) w2))))
    = 10240.
Proof.
  cbv zeta.
  pose proof (blacklist_window
                {| Interval := Hour; Capacity := 10240; Quantum := 1024 |}
                memDB [x01] Hour (Unix 1500000000)
                (snd (Create (NewPersisted {| Interval := Hour; Capacity := 10240; Quantum := 1024 |} memDB)
                        [x01] {| Interval := Hour; Capacity := 10240; Quantum := 1024 |}
                        {| clock := Unix 1500000000; disk := ∅ |}))
                [(Unix 1500000000 + 1, ITakeAvailable [x01] 100);
                 (Unix 1500000000 + 2, ICreate [x01] {| Interval := Hour; Capacity := 10240; Quantum := 1024 |});
                 (Unix 1500000000 + 3, ICreate [x02] {| Interval := Hour; Capacity := 10240; Quantum := 1024 |});
                 (Unix 1500000000 + 4, IRemove [x02] Hour);
                 (Unix 1500000000 + 5, IAvailable [x01])]
                memDB_lawful) as H.
  cbv zeta in H.
  destruct H as (H1 & H2 & H3).
  - reflexivity.
  - repeat constructor; simpl; discriminate.
  - split; [apply H1; reflexivity |].
    split; [apply H2; reflexivity |].
    apply (H3 {| Interval := Hour; Capacity := 10240; Quantum := 1024 |}
              (Unix 1500000000 + Hour)).
    discriminate.
Defined.

End BlacklistProperties.

(** ** The direction wrapper *)

Section WrapperProperties.
Import ratelimiter.

Variable defaultConfig : Config.

(** Whatever a limiter under prefix [p] does, a handle under a prefix [q]
    whose keys never meet those of [p] sees no change. *)
Lemma perform_isolated (mode : Z) (db : DBInterface) (p q : list byte)
    (c : call) (w : World) :
  LawfulDB db -> (forall k k', p ++ k <> q ++ k') ->
  same_view (WithPrefix db q)
    (disk (snd (perform
                  (NewPeerRateLimiter mode
                     (NewPersisted defaultConfig (WithPrefix db p))) c w)))
    (disk w).
Proof.
  intros Hdb Hpq k. rewrite perform_to_icall. simpl.
  destruct (iperform_effect defaultConfig (WithPrefix db p)
              (to_icall (selectFunc mode) c) w) as [_ Ht].
  apply touches_WithPrefix in Ht.
  apply (touches_other_key db _ _ _ _ Hdb Ht). apply Hpq.
Qed.

Lemma run_peer_isolated (mode : Z) (db : DBInterface) (p q : list byte)
    (steps : list (Time * call)) (w : World) :
  LawfulDB db -> (forall k k', p ++ k <> q ++ k') ->
  same_view (WithPrefix db q)
    (disk (run_peer_at
             (NewPeerRateLimiter mode
                (NewPersisted defaultConfig (WithPrefix db p))) steps w))
    (disk w).
Proof.
  intros Hdb Hpq. revert w.
  induction steps as [| step steps IH]; intros w; [apply same_view_refl |].
  unfold run_peer_at. simpl.
  eapply same_view_trans; [apply IH |].
  unfold perform_at. intros k.
  rewrite (perform_isolated mode db p q (snd step) (at_time (fst step) w)
             Hdb Hpq k).
  reflexivity.
Qed.

(** So a call under [q] answers the same with or without a run under
    [p] before it. *)
Lemma perform_after_other_direction (mode : Z) (db : DBInterface)
    (p q : list byte) (steps : list (Time * call)) (now : Time) (c : call)
    (w : World) :
  LawfulDB db -> (forall k k', p ++ k <> q ++ k') ->
  fst (perform_at
         (NewPeerRateLimiter mode (NewPersisted defaultConfig (WithPrefix db q)))
         now c
         (run_peer_at
            (NewPeerRateLimiter mode
               (NewPersisted defaultConfig (WithPrefix db p))) steps w))
  = fst (perform_at
           (NewPeerRateLimiter mode
              (NewPersisted defaultConfig (WithPrefix db q))) now c w).
Proof.
  intros Hdb Hpq. unfold perform_at. rewrite !perform_to_icall. simpl.
  apply (iperform_same_view defaultConfig (WithPrefix db q)
           (WithPrefix_lawful db q Hdb)).
  - reflexivity.
  - simpl. apply run_peer_isolated; assumption.
Qed.

(** C4. [ForWhisper] wraps two persisted limiters over the one database,
    the ingress one under prefix "i" and the egress one under prefix "e".
    Keys under the two prefixes never coincide, so no run of ingress calls
    changes what the egress store shows and the other way round, and a call
    in one direction returns the same whether or not calls in the other
    direction, for the same peers, came before it. *)
Theorem ForWhisper_namespaces (mode : Z) (db : DBInterface) (ingress : Config) :
  LawfulDB db ->
  let W := ForWhisper defaultConfig mode db ingress in
  ratelimiter (Ingress W) = NewPersisted defaultConfig (WithPrefix db prefix_i) /\
  ratelimiter (Egress W) = NewPersisted defaultConfig (WithPrefix db prefix_e) /\
  prefix_i = list_byte_of_string "i" /\
  prefix_e = list_byte_of_string "e" /\
  (forall k k', prefix_i ++ k <> prefix_e ++ k') /\
  (forall steps w,
     same_view (WithPrefix db prefix_e)
       (disk (run_peer_at (Ingress W) steps w)) (disk w)) /\
  (forall steps w,
     same_view (WithPrefix db prefix_i)
       (disk (run_peer_at (Egress W) steps w)) (disk w)) /\
  (forall steps now c w,
     fst (perform_at (Egress W) now c (run_peer_at (Ingress W) steps w))
     = fst (perform_at (Egress W) now c w)) /\
  (forall steps now c w,
     fst (perform_at (Ingress W) now c (run_peer_at (Egress W) steps w))
     = fst (perform_at (Ingress W) now c w)).
Proof.
  intros Hdb W.
  assert (Hie : forall k k', prefix_i ++ k <> prefix_e ++ k')
    by exact prefixes_disjoint.
  assert (Hei : forall k k', prefix_e ++ k <> prefix_i ++ k').
  { intros k k' E. symmetry in E. revert E. apply prefixes_disjoint. }
  repeat split.
  - exact Hie.
  - intros steps w k.
    apply (run_peer_isolated mode db prefix_i prefix_e steps w Hdb Hie).
  - intros steps w k.
    apply (run_peer_isolated mode db prefix_e prefix_i steps w Hdb Hei).
  - intros steps now c w.
    apply (perform_after_other_direction mode db prefix_i prefix_e); assumption.
  - intros steps now c w.
    apply (perform_after_other_direction mode db prefix_e prefix_i); assumption.
Qed.

End WrapperProperties.

Section WrapperExamples.
Import ratelimiter.

(** Same peer, same database: 10 KiB taken inbound leave the outbound
    balance full. *)
Lemma ForWhisper_namespaces_witness :
  let W := ForWhisper testConfig IDMode memDB testConfig in
  let t0 := Unix 1500000000 in
  let w := {| clock := t0; disk := ∅ |} in
  let w1 := snd (perform (Egress W) (CallCreate testPeer testConfig) w) in
  let steps := [(t0, CallCreate testPeer testConfig);
                (t0 + 1, CallTakeAvailable testPeer (11 * 1024))] in
  LawfulDB memDB /\
  fst (perform_at (Egress W) (t0 + 2) (CallAvailable testPeer)
         (run_peer_at (Ingress W) steps w1))
  = fst (perform_at (Egress W) (t0 + 2) (CallAvailable testPeer) w1) /\
  fst (perform_at (Egress W) (t0 + 2) (CallAvailable testPeer) w1)
  = RCount (10 * 1024) /\
  fst (perform_at (Ingress W) (t0 + 2) (CallAvailable testPeer)
         (run_peer_at (Ingress W) steps w1))
  = RCount 0.
Proof.
  cbv zeta. split; [exact memDB_lawful |].
  split; [| split; reflexivity].
  apply (ForWhisper_namespaces testConfig IDMode memDB testConfig memDB_lawful).
Defined.

End WrapperExamples.

Section ConfigProperties.
Import ratelimiter.

Variable defaultConfig : Config.

(** [Create] on an identity the store does not know writes a full bucket
    of the Config it is called with. *)
Lemma Create_stores_config (db : DBInterface) (id : list byte) (cfg : Config)
    (w : World) :
  LawfulDB db -> Get db id (disk w) = None ->
  Get db id (disk (snd (Create (NewPersisted defaultConfig db) id cfg w)))
    = Some (BucketRecord (Bucket.new cfg (clock w))).
Proof.
  intros Hdb Hg. simpl. unfold Persisted_Create, load. rewrite Hg. simpl.
  apply (get_put_eq db Hdb).
Qed.

(** C9, as stated, fails: two wrappers built from different Configs have
    the same ingress limiter and the same egress limiter; the Config is
    kept in the wrapper's own field and nowhere else. *)
Lemma ForWhisper_limiters_ignore_config :
  let a := testConfig in
  let b := {| Interval := Second; Capacity := 1; Quantum := 1 |} in
  a <> b /\
  Ingress (ForWhisper testConfig IDMode memDB a)
    = Ingress (ForWhisper testConfig IDMode memDB b) /\
  Egress (ForWhisper testConfig IDMode memDB a)
    = Egress (ForWhisper testConfig IDMode memDB b) /\
  Whisper_Config (ForWhisper testConfig IDMode memDB a) = a /\
  Whisper_Config (ForWhisper testConfig IDMode memDB b) = b.
Proof. cbv zeta. split; [discriminate | repeat split]. Qed.

(** C9, amended. [ForWhisper] takes one Config, the ingress one, and
    keeps it in the wrapper's [Config] field; neither limiter is built from
    it. A Config reaches a limiter as the argument of [Create] only, which
    either direction hands on unchanged to its own limiter, under its own
    prefix. *)
Theorem ForWhisper_single_config (mode : Z) (db : DBInterface)
    (c1 c2 : Config) (peer : Peer) (cfg : Config) (w : World) :
  Ingress (ForWhisper defaultConfig mode db c1)
    = Ingress (ForWhisper defaultConfig mode db c2) /\
  Egress (ForWhisper defaultConfig mode db c1)
    = Egress (ForWhisper defaultConfig mode db c2) /\
  Whisper_Config (ForWhisper defaultConfig mode db c1) = c1 /\
  PeerRateLimiter_Create (Ingress (ForWhisper defaultConfig mode db c1)) peer cfg w
    = Create (NewPersisted defaultConfig (WithPrefix db prefix_i))
             (selectFunc mode peer) cfg w /\
  PeerRateLimiter_Create (Egress (ForWhisper defaultConfig mode db c1)) peer cfg w
    = Create (NewPersisted defaultConfig (WithPrefix db prefix_e))
             (selectFunc mode peer) cfg w.
Proof. repeat split. Qed.

End ConfigProperties.

(** One peer, created inbound with one Config and outbound with another:
    the two buckets carry the Config of their own [Create]. *)
Example Create_per_direction :
  let W := ratelimiter.ForWhisper ratelimiter.testConfig ratelimiter.IDMode
             ratelimiter.memDB ratelimiter.testConfig in
  let other := {| ratelimiter.Interval := Second; ratelimiter.Capacity := 7;
                  ratelimiter.Quantum := 1 |} in
  let w0 := {| ratelimiter.clock := Unix 1500000000; ratelimiter.disk := ∅ |} in
  let w1 := snd (ratelimiter.PeerRateLimiter_Create (ratelimiter.Ingress W)
                   ratelimiter.testPeer ratelimiter.testConfig w0) in
  let w2 := snd (ratelimiter.PeerRateLimiter_Create (ratelimiter.Egress W)
                   ratelimiter.testPeer other w1) in
  fst (ratelimiter.PeerRateLimiter_Available (ratelimiter.Ingress W) ratelimiter.testPeer w2)
    = 10240 /\
  fst (ratelimiter.PeerRateLimiter_Available (ratelimiter.Egress W) ratelimiter.testPeer w2)
    = 7.
Proof. split; reflexivity. Qed.

(** ** The libp2p adapter *)

Section AdapterProperties.
Import libp2p.

Lemma Sub_in_range (t u : Time) :
  minDuration <= Sub t u <= maxDuration.
Proof.
  unfold Sub.
  destruct (t - u >? maxDuration) eqn:E1.
  - unfold minDuration, maxDuration. lia.
  - destruct (t - u <? minDuration) eqn:E2.
    + unfold minDuration, maxDuration. lia.
    + apply Z.ltb_ge in E2. rewrite Z.gtb_ltb in E1. apply Z.ltb_ge in E1. lia.
Qed.

(** Saturation changes the comparison with a period in one case only:
    the period is the largest Duration and more than that has elapsed. *)
Lemma Sub_gt_period (t u : Time) (p : Duration) :
  minDuration <= p <= maxDuration ->
  p < maxDuration \/ t - u <= maxDuration ->
  (Sub t u > p <-> t - u > p).
Proof.
  intros Hp Hcase. unfold Sub.
  destruct (t - u >? maxDuration) eqn:E1.
  - rewrite Z.gtb_ltb in E1. apply Z.ltb_lt in E1. lia.
  - rewrite Z.gtb_ltb in E1. apply Z.ltb_ge in E1.
    destruct (t - u <? minDuration) eqn:E2.
    + apply Z.ltb_lt in E2. lia.
    + lia.
Qed.

Lemma IsFlaky_stored (c : connection) (now : Time) (h : heap) (t : Time) :
  Load (received c) h = Some t ->
  connection_IsFlaky c now h
  = (negb (period c =? 0) && (Since now t >? period c))%bool.
Proof.
  intros Hl. unfold connection_IsFlaky. rewrite Hl.
  destruct (period c =? 0); reflexivity.
Qed.

(** [Update] is seen through every copy of the connection: the cell is
    shared. *)
Lemma Load_Update (c : connection) (t : Time) (h : heap) :
  Load (received c) (connection_Update c t h) = Some t.
Proof.
  unfold Load, connection_Update, Store. rewrite lookup_insert_eq. reflexivity.
Qed.

Lemma fresh_connection_cell (i : NodeID) (p : Duration) (h : heap) :
  id (fst (fresh_connection i p h)) = i /\
  period (fst (fresh_connection i p h)) = p /\
  (received (fst (fresh_connection i p h)) ∉ dom h) /\
  Load (received (fst (fresh_connection i p h))) (snd (fresh_connection i p h))
    = Some zeroTime.
Proof.
  unfold fresh_connection, new_Value. simpl.
  repeat split.
  - apply is_fresh.
  - apply Load_Update.
Qed.

Lemma Handle_secp256k1 {E : Type} (w : Whisper E) (s : net_Stream)
    (k : ecdsa_PublicKey) (p read write : Duration) (st : World E) :
  RemotePublicKey (Conn s) = Secp256k1PublicKey k ->
  Handle w s p read write st
  = HandleConnection w (fst (fresh_connection (PubkeyID k) p (cells st)))
      {| s := s; rlp := rlp_NewStream s 0;
         readTimeout := read; writeTimeout := write |}
      (with_cells st (snd (fresh_connection (PubkeyID k) p (cells st)))).
Proof.
  intros Hk. unfold Handle. rewrite Hk. reflexivity.
Qed.

(** C7. When the remote public key is not a secp256k1 key, the identity
    derivation fails and [Handle] returns that error with the world as it
    was, the same for every engine: [HandleConnection] is not called. When it
    is a secp256k1 key, the derivation succeeds and [Handle] is the
    engine's [HandleConnection] on the new connection. *)
Theorem Handle_identity_derivation {E : Type} (w : Whisper E) (s : net_Stream)
    (p read write : Duration) (st : World E) :
  (is_secp256k1 (RemotePublicKey (Conn s)) = false ->
     snd (PubKeyToNodeID (RemotePublicKey (Conn s))) = errNotSecp256k1 /\
     errNotSecp256k1 <> None /\
     Handle w s p read write st = (errNotSecp256k1, st) /\
     forall w' : Whisper E,
       Handle w' s p read write st = Handle w s p read write st) /\
  (forall k, RemotePublicKey (Conn s) = Secp256k1PublicKey k ->
     PubKeyToNodeID (RemotePublicKey (Conn s)) = (PubkeyID k, None) /\
     Handle w s p read write st
     = HandleConnection w (fst (fresh_connection (PubkeyID k) p (cells st)))
         {| s := s; rlp := rlp_NewStream s 0;
            readTimeout := read; writeTimeout := write |}
         (with_cells st (snd (fresh_connection (PubkeyID k) p (cells st))))).
Proof.
  split.
  - intros Hk. unfold Handle.
    destruct (RemotePublicKey (Conn s)); try discriminate Hk;
      (split; [reflexivity | split; [discriminate | split; [reflexivity |]]]);
      intros w'; reflexivity.
  - intros k Hk. split.
    + rewrite Hk. reflexivity.
    + apply Handle_secp256k1. exact Hk.
Qed.

(** An Ed25519 peer is turned away and the recording engine records
    nothing; a secp256k1 peer is handed to it, once. *)
Lemma Handle_identity_derivation_witness :
  let ed := {| Conn := {| RemotePublicKey := Ed25519PublicKey [x01; x02] |} |} in
  let sk := {| Conn := {| RemotePublicKey :=
                            Secp256k1PublicKey {| X := 1; Y := 2 |} |} |} in
  let st := {| cells := ∅; engine := [] |} in
  is_secp256k1 (RemotePublicKey (Conn ed)) = false /\
  Handle recording ed Hour Second Second st = (errNotSecp256k1, st) /\
  engine (snd (Handle recording ed Hour Second Second st)) = [] /\
  RemotePublicKey (Conn sk) = Secp256k1PublicKey {| X := 1; Y := 2 |} /\
  fst (Handle recording sk Hour Second Second st) = None /\
  length (engine (snd (Handle recording sk Hour Second Second st))) = 1%nat.
Proof.
  cbv zeta.
  pose proof (Handle_identity_derivation recording
                {| Conn := {| RemotePublicKey := Ed25519PublicKey [x01; x02] |} |}
                Hour Second Second {| cells := ∅; engine := [] |}) as [H _].
  pose proof (Handle_identity_derivation recording
                {| Conn := {| RemotePublicKey :=
                              Secp256k1PublicKey {| X := 1; Y := 2 |} |} |}
                Hour Second Second {| cells := ∅; engine := [] |}) as [_ H'].
  specialize (H eq_refl). destruct H as (_ & _ & H & _).
  specialize (H' {| X := 1; Y := 2 |} eq_refl). destruct H' as [_ H'].
  split; [reflexivity |].
  split; [exact H |].
  split; [rewrite H; reflexivity |].
  split; [reflexivity |].
  rewrite H'. split; reflexivity.
Defined.

(** C8, as stated, fails when the period is the largest Duration and the
    last activity lies further back than a Duration can say, as the zero
    time does: the elapsed time is cut down to the period and does not
    exceed it. *)
Lemma IsFlaky_saturated_elapsed :
  let c := {| id := zeroNodeID; received := O; period := maxDuration |} in
  let h : heap := {[ O := Some zeroTime ]} in
  let now := Unix 1500000000 in
  period c <> 0 /\
  Load (received c) h = Some zeroTime /\
  now - zeroTime > period c /\
  connection_IsFlaky c now h = false.
Proof. cbv zeta. split; [discriminate | repeat split]. Qed.

(** C8, amended. For a connection whose cell holds a timestamp [t] and
    whose period is a Duration: [IsFlaky] is false when the period is zero;
    otherwise it is true exactly when [time.Since(t)], which is [now - t] cut
    to the range of a Duration, exceeds the period; and that is exactly when
    [now - t] exceeds the period, unless the period is the largest Duration
    and more than that has elapsed. *)
Theorem IsFlaky_staleness (c : connection) (now : Time) (h : heap) (t : Time) :
  Load (received c) h = Some t ->
  minDuration <= period c <= maxDuration ->
  (period c = 0 -> connection_IsFlaky c now h = false) /\
  (period c <> 0 ->
     (connection_IsFlaky c now h = true <-> Since now t > period c)) /\
  (period c <> 0 ->
     period c < maxDuration \/ now - t <= maxDuration ->
     (connection_IsFlaky c now h = true <-> now - t > period c)).
Proof.
  intros Hl Hp. rewrite (IsFlaky_stored c now h t Hl).
  assert (Hgt : forall a b, (a >? b) = true <-> a > b).
  { intros a b. rewrite Z.gtb_ltb, Z.ltb_lt. lia. }
  split; [| split].
  - intros H0. rewrite H0. reflexivity.
  - intros Hne. destruct (period c =? 0) eqn:E;
      [apply Z.eqb_eq in E; contradiction |].
    simpl. apply Hgt.
  - intros Hne Hcase. destruct (period c =? 0) eqn:E;
      [apply Z.eqb_eq in E; contradiction |].
    simpl. rewrite Hgt. unfold Since. apply Sub_gt_period; assumption.
Qed.

Lemma IsFlaky_staleness_witness :
  let c := {| id := zeroNodeID; received := O; period := 30 * Second |} in
  let h : heap := {[ O := Some (Unix 1500000000) ]} in
  Load (received c) h = Some (Unix 1500000000) /\
  connection_IsFlaky c (Unix 1500000031) h = true /\
  connection_IsFlaky c (Unix 1500000030) h = false /\
  connection_IsFlaky {| id := zeroNodeID; received := O; period := 0 |}
    (Unix 1500000031) h = false.
Proof.
  cbv zeta.
  pose proof (IsFlaky_staleness
                {| id := zeroNodeID; received := O; period := 30 * Second |}
                (Unix 1500000031) {[ O := Some (Unix 1500000000) ]}
                (Unix 1500000000) eq_refl) as H1.
  pose proof (IsFlaky_staleness
                {| id := zeroNodeID; received := O; period := 0 |}
                (Unix 1500000031) {[ O := Some (Unix 1500000000) ]}
                (Unix 1500000000) eq_refl) as H0.
  split; [reflexivity |].
  split; [| split; [reflexivity |]].
  - destruct H1 as (_ & _ & H1); [split; discriminate |].
    apply H1; [discriminate | left; reflexivity | reflexivity].
  - destruct H0 as (H0 & _); [split; discriminate |].
    apply H0. reflexivity.
Defined.

(** C10, as stated, fails for the largest Duration as period: the elapsed
    time since the zero time is cut to that very value, and the connection
    [Handle] has just made is not flaky. *)
Lemma fresh_connection_max_period :
  let sk := {| Conn := {| RemotePublicKey :=
                            Secp256k1PublicKey {| X := 1; Y := 2 |} |} |} in
  let st := {| cells := ∅; engine := [] |} in
  maxDuration <> 0 /\
  exists conn stream h,
    engine (snd (Handle recording sk maxDuration Second Second st))
      = [(conn, stream, h)] /\
    period conn = maxDuration /\
    Load (received conn) h = Some zeroTime /\
    connection_IsFlaky conn (Unix 1500000000) h = false.
Proof.
  cbv zeta. split; [discriminate |].
  eexists _, _, _. split; [reflexivity |]. repeat split.
Qed.

(** C10, amended. The connection [Handle] passes to the engine has the
    zero time in its cell. For a period that is neither zero nor the
    largest Duration it is flaky at every clock reading more than the
    period after the zero time, and so at every reading from 1970 on; once
    [Update(t)] has run, the cell holds [t] and [IsFlaky] goes by [t]. *)
Theorem fresh_connection_is_flaky {E : Type} (w : Whisper E) (s : net_Stream)
    (k : ecdsa_PublicKey) (p read write : Duration) (st : World E)
    (now : Time) :
  RemotePublicKey (Conn s) = Secp256k1PublicKey k ->
  let conn := fst (fresh_connection (PubkeyID k) p (cells st)) in
  let h := snd (fresh_connection (PubkeyID k) p (cells st)) in
  Handle w s p read write st
  = HandleConnection w conn
      {| s := s; rlp := rlp_NewStream s 0;
         readTimeout := read; writeTimeout := write |}
      (with_cells st h) /\
  period conn = p /\
  Load (received conn) h = Some zeroTime /\
  (p <> 0 -> p < maxDuration -> p < now - zeroTime ->
     connection_IsFlaky conn now h = true) /\
  (p <> 0 -> p < maxDuration -> Unix 0 <= now ->
     connection_IsFlaky conn now h = true) /\
  (forall t,
     Load (received conn) (connection_Update conn t h) = Some t /\
     connection_IsFlaky conn now (connection_Update conn t h)
     = (negb (p =? 0) && (Since now t >? p))%bool).
Proof.
  intros Hk conn h.
  destruct (fresh_connection_cell (PubkeyID k) p (cells st))
    as (_ & Hp & _ & Hl).
  fold conn in Hp, Hl. fold h in Hl.
  split; [apply Handle_secp256k1; exact Hk |].
  split; [exact Hp |].
  split; [exact Hl |].
  assert (Hflaky : p <> 0 -> p < maxDuration -> p < now - zeroTime ->
                   connection_IsFlaky conn now h = true).
  { intros Hne Hmax Hnow.
    rewrite (IsFlaky_stored conn now h zeroTime Hl). rewrite Hp.
    destruct (p =? 0) eqn:Ez; [apply Z.eqb_eq in Ez; contradiction |].
    simpl. rewrite Z.gtb_ltb. apply Z.ltb_lt.
    unfold Since, Sub.
    destruct (now - zeroTime >? maxDuration); [exact Hmax |].
    destruct (now - zeroTime <? minDuration) eqn:E2; [| exact Hnow].
    apply Z.ltb_lt in E2. unfold minDuration in *.
    unfold maxDuration in Hmax. lia. }
  split; [exact Hflaky |].
  split.
  - intros Hne Hmax Hnow. apply Hflaky; [exact Hne | exact Hmax |].
    assert (Hepoch : maxDuration < Unix 0) by reflexivity.
    unfold zeroTime. lia.
  - intros t. split; [apply Load_Update |].
    rewrite (IsFlaky_stored conn now _ t (Load_Update conn t h)).
    rewrite Hp. reflexivity.
Qed.

Lemma fresh_connection_is_flaky_witness :
  let sk := {| Conn := {| RemotePublicKey :=
                            Secp256k1PublicKey {| X := 1; Y := 2 |} |} |} in
  let st := {| cells := ∅; engine := @nil (connection * Stream * heap) |} in
  let fc := fresh_connection (PubkeyID {| X := 1; Y := 2 |}) (30 * Second) ∅ in
  RemotePublicKey (Conn sk) = Secp256k1PublicKey {| X := 1; Y := 2 |} /\
  connection_IsFlaky (fst fc) (Unix 1500000000) (snd fc) = true /\
  connection_IsFlaky (fst fc) (Unix 1500000000)
    (connection_Update (fst fc) (Unix 1499999990) (snd fc)) = false.
Proof.
  cbv zeta.
  pose proof (fresh_connection_is_flaky recording
                {| Conn := {| RemotePublicKey :=
                                Secp256k1PublicKey {| X := 1; Y := 2 |} |} |}
                {| X := 1; Y := 2 |} (30 * Second) Second Second
                {| cells := ∅; engine := [] |} (Unix 1500000000) eq_refl) as H.
  cbv zeta in H. destruct H as (_ & _ & _ & _ & Hflaky & Hupd).
  split; [reflexivity |].
  split.
  - apply Hflaky; [discriminate | reflexivity | discriminate].
  - destruct (Hupd (Unix 1499999990)) as [_ Hu].
    refine (eq_trans Hu _). reflexivity.
Defined.

End AdapterProperties.

(* ===================================================================== *)
(** * Further properties of [peer.go] *)
(* ===================================================================== *)

Section AdapterRuns.
Import ratelimiter.

Lemma iperform_all_mock (ics : list icall) (log : list icall) :
  snd (iperform_all mock ics log) = log ++ ics.
Proof.
  revert log. induction ics as [| c ics IH]; intros log; simpl.
  - rewrite app_nil_r. reflexivity.
  - destruct c as [i cfg | i d | i n | i]; simpl;
      match goal with
      | |- context [iperform_all mock ics ?l] =>
          specialize (IH l); destruct (iperform_all mock ics l) as [xs st2]
      end; simpl in *; rewrite IH, <- app_assoc; reflexivity.
Qed.

Lemma perform_all_to_icall {S : Type} (r : PeerRateLimiter S)
    (cs : list call) (st : S) :
  perform_all r cs st
  = iperform_all (ratelimiter r) (map (to_icall (getID r)) cs) st.
Proof.
  revert st. induction cs as [| c cs IH]; intros st; simpl; [reflexivity |].
  rewrite perform_to_icall.
  destruct (iperform (ratelimiter r) (to_icall (getID r) c) st) as [x st1].
  rewrite IH. reflexivity.
Qed.

(** X1. A run of calls on a [PeerRateLimiter] is the run of the same calls,
    each at the identity of its peer, on the wrapped limiter: same results,
    same final state. On the mock of the tests, which keeps the calls it
    gets, the log grows by exactly these calls in their order: none
    dropped, repeated or reordered. *)
Theorem adapter_forwards_every_call :
  (forall (S : Type) (r : PeerRateLimiter S) (cs : list call) (st : S),
     perform_all r cs st
     = iperform_all (ratelimiter r) (map (to_icall (getID r)) cs) st) /\
  (forall (mode : Z) (cs : list call) (log : list icall),
     snd (perform_all (NewPeerRateLimiter mode mock) cs log)
     = log ++ map (to_icall (selectFunc mode)) cs).
Proof.
  split.
  - intros S r cs st. apply perform_all_to_icall.
  - intros mode cs log. rewrite perform_all_to_icall. simpl.
    apply iperform_all_mock.
Qed.

(** X2. Outside IP mode a peer is its ID: two peer handles with the same
    ID, whatever their addresses, get the same answer from each of the four
    methods and leave the same state. *)
Theorem same_ID_same_bucket {S : Type} (mode : Z) (rl : Interface S)
    (p q : Peer) (cfg : Config) (duration : Duration) (count : Z) (st : S) :
  mode <> IPMode -> ID p = ID q ->
  let r := NewPeerRateLimiter mode rl in
  PeerRateLimiter_Create r p cfg st = PeerRateLimiter_Create r q cfg st /\
  PeerRateLimiter_Remove r p duration st
    = PeerRateLimiter_Remove r q duration st /\
  PeerRateLimiter_TakeAvailable r p count st
    = PeerRateLimiter_TakeAvailable r q count st /\
  PeerRateLimiter_Available r p st = PeerRateLimiter_Available r q st.
Proof.
  intros Hmode Hid r.
  assert (Hkey : getID r p = getID r q).
  { simpl. unfold selectFunc.
    destruct (mode =? IPMode) eqn:E; [apply Z.eqb_eq in E; contradiction |].
    exact Hid. }
  unfold PeerRateLimiter_Create, PeerRateLimiter_Remove,
    PeerRateLimiter_TakeAvailable, PeerRateLimiter_Available.
  rewrite Hkey. repeat split.
Qed.

Lemma same_ID_same_bucket_witness :
  let p := {| ID := [x01; x02]; RemoteAddr := TCPAddr [xc0; x00; x02; x01] 30303 "" |} in
  let q := {| ID := [x01; x02]; RemoteAddr := pipeAddr |} in
  IDMode <> IPMode /\ ID p = ID q /\
  PeerRateLimiter_TakeAvailable (NewPeerRateLimiter IDMode mock) p 5 []
  = PeerRateLimiter_TakeAvailable (NewPeerRateLimiter IDMode mock) q 5 [].
Proof.
  cbv zeta. split; [discriminate |]. split; [reflexivity |].
  apply (same_ID_same_bucket IDMode mock
           {| ID := [x01; x02]; RemoteAddr := TCPAddr [xc0; x00; x02; x01] 30303 "" |}
           {| ID := [x01; x02]; RemoteAddr := pipeAddr |}
           testConfig 0 5 []);
    [discriminate | reflexivity].
Defined.

Lemma byIP_key (peer : Peer) : byIP peer = [].
Proof. destruct peer as [i [ip port zone |]]; reflexivity. Qed.

(** X3. In IP mode every method reaches the wrapped limiter with the empty
    identity, for every peer: the name of the network that [byIP] parses
    is never an address. All peers of an IP-mode limiter therefore share one
    bucket. *)
Theorem IPMode_one_identity {S : Type} (rl : Interface S) (p : Peer)
    (cfg : Config) (duration : Duration) (count : Z) (st : S) :
  let r := NewPeerRateLimiter IPMode rl in
  PeerRateLimiter_Create r p cfg st = Create rl [] cfg st /\
  PeerRateLimiter_Remove r p duration st = Remove rl [] duration st /\
  PeerRateLimiter_TakeAvailable r p count st = TakeAvailable rl [] count st /\
  PeerRateLimiter_Available r p st = Available rl [] st.
Proof.
  intros r.
  unfold PeerRateLimiter_Create, PeerRateLimiter_Remove,
    PeerRateLimiter_TakeAvailable, PeerRateLimiter_Available.
  assert (Hkey : getID r p = []) by apply byIP_key.
  rewrite Hkey. repeat split.
Qed.

Lemma parseIPv4_shape (s : string) :
  parseIPv4 s = [] \/ exists a b c d, parseIPv4 s = IPv4 a b c d.
Proof.
  unfold parseIPv4.
  destruct (parseIPv4_from IPv4len true s []) as [[| a [| b [| c [| d [| e l]]]]] |];
    try (left; reflexivity).
  right. exists a, b, c, d. reflexivity.
Qed.

(** X4. Whatever string [byIP] were to split, the split has a first piece,
    so the index [[0]] is in range; and that piece, holding no colon, is read
    as dotted IPv4 or not at all: the parse gives either no address or the
    16-byte form of an IPv4 address, never an IPv6 one. *)
Theorem byIP_split_then_parse (addr : string) :
  is_Some (Split addr ":" !! O) /\
  (ParseIP (Split addr ":" !!! O) = [] \/
   exists a b c d, ParseIP (Split addr ":" !!! O) = IPv4 a b c d /\
                   length (IPv4 a b c d) = IPv6len).
Proof.
  split; [apply Split_from_first |].
  destruct (byIP_parse_stage addr) as [H | H]; [left; exact H |].
  rewrite H.
  destruct (parseIPv4_shape (Split addr ":" !!! O)) as [E | (a & b & c & d & E)].
  - left. exact E.
  - right. exists a, b, c, d. split; [exact E | reflexivity].
Qed.

(** An IPv6 host with its port yields no address; an IPv4 one yields
    its address. *)
Example byIP_split_then_parse_samples :
  ParseIP (Split "[2001:db8::1]:30303" ":" !!! O) = [] /\
  ParseIP (Split "2001:db8::1" ":" !!! O) = [] /\
  ParseIP (Split "10.0.0.7:30303" ":" !!! O) = IPv4 x0a x00 x00 x07.
Proof. repeat split. Qed.

End AdapterRuns.

(* ===================================================================== *)
(** * Further properties of the libp2p adapter *)
(* ===================================================================== *)

Section ConnectionProperties.
Import libp2p.

Lemma Sub_mono (t t' u : Time) : t <= t' -> Sub t u <= Sub t' u.
Proof.
  intros Hle. unfold Sub.
  destruct (t - u >? maxDuration) eqn:E1; rewrite Z.gtb_ltb in E1;
    destruct (t' - u >? maxDuration) eqn:E1'; rewrite Z.gtb_ltb in E1';
    destruct (t - u <? minDuration) eqn:E2;
    destruct (t' - u <? minDuration) eqn:E2';
    repeat match goal with
           | H : (_ <? _) = true |- _ => apply Z.ltb_lt in H
           | H : (_ <? _) = false |- _ => apply Z.ltb_ge in H
           end;
    unfold minDuration, maxDuration in *; lia.
Qed.

(** X5. Staleness only grows with the clock: a connection that is flaky
    at one clock reading is flaky at every later one, as long as its cell is
    not written. *)
Theorem IsFlaky_stays (c : connection) (now now' : Time) (h : heap) :
  connection_IsFlaky c now h = true -> now <= now' ->
  connection_IsFlaky c now' h = true.
Proof.
  unfold connection_IsFlaky. intros Hf Hle.
  destruct (period c =? 0); [discriminate Hf |].
  destruct (Load (received c) h) as [t |]; [| discriminate Hf].
  rewrite Z.gtb_ltb in *. apply Z.ltb_lt in Hf. apply Z.ltb_lt.
  pose proof (Sub_mono now now' t Hle) as Hm. unfold Since in *. lia.
Qed.

Lemma IsFlaky_stays_witness :
  let c := {| id := zeroNodeID; received := O; period := 30 * Second |} in
  let h : heap := {[ O := Some (Unix 1500000000) ]} in
  connection_IsFlaky c (Unix 1500000031) h = true /\
  Unix 1500000031 <= Unix 1600000000 /\
  connection_IsFlaky c (Unix 1600000000) h = true.
Proof.
  cbv zeta. split; [reflexivity |]. split; [discriminate |].
  apply (IsFlaky_stays
           {| id := zeroNodeID; received := O; period := 30 * Second |}
           (Unix 1500000031) (Unix 1600000000)
           {[ O := Some (Unix 1500000000) ]});
    [reflexivity | discriminate].
Defined.

(** X7. [Update] writes the cell of its own connection only: the
    flakiness of a connection with another cell is the same before and
    after. *)
Theorem Update_other_connection (c c' : connection) (t now : Time) (h : heap) :
  received c <> received c' ->
  Load (received c') (connection_Update c t h) = Load (received c') h /\
  connection_IsFlaky c' now (connection_Update c t h)
  = connection_IsFlaky c' now h.
Proof.
  intros Hne.
  assert (Hl : Load (received c') (connection_Update c t h)
               = Load (received c') h).
  { unfold Load, connection_Update, Store.
    rewrite lookup_insert_ne by exact Hne. reflexivity. }
  split; [exact Hl |].
  unfold connection_IsFlaky. rewrite Hl. reflexivity.
Qed.

Lemma Update_other_connection_witness :
  let a := {| id := zeroNodeID; received := O; period := 30 * Second |} in
  let b := {| id := zeroNodeID; received := 1%nat; period := 30 * Second |} in
  let h : heap := {[ O := Some zeroTime; 1%nat := Some zeroTime ]} in
  received a <> received b /\
  connection_IsFlaky b (Unix 1500000000)
    (connection_Update a (Unix 1500000000) h) = true /\
  connection_IsFlaky a (Unix 1500000000)
    (connection_Update a (Unix 1500000000) h) = false.
Proof.
  cbv zeta. split; [discriminate |]. split; [| reflexivity].
  refine (eq_trans
            (proj2 (Update_other_connection
                      {| id := zeroNodeID; received := O; period := 30 * Second |}
                      {| id := zeroNodeID; received := 1%nat; period := 30 * Second |}
                      (Unix 1500000000) (Unix 1500000000)
                      {[ O := Some zeroTime; 1%nat := Some zeroTime ]} _)) _);
    [discriminate | reflexivity].
Defined.

(** X8. [Update] overwrites: after [Update(t1)] and then [Update(t2)] the
    heap is as after [Update(t2)] alone, and [IsFlaky] goes by [t2], also
    when [t2] is the earlier of the two. *)
Theorem Update_last_write_wins (c : connection) (t1 t2 now : Time) (h : heap) :
  connection_Update c t2 (connection_Update c t1 h) = connection_Update c t2 h /\
  connection_IsFlaky c now (connection_Update c t2 (connection_Update c t1 h))
  = (negb (period c =? 0) && (Since now t2 >? period c))%bool.
Proof.
  split.
  - unfold connection_Update, Store. apply insert_insert_eq.
  - apply IsFlaky_stored. apply Load_Update.
Qed.

(** An [Update] with an older timestamp makes a fresh connection stale
    again. *)
Example Update_older_timestamp :
  let c := {| id := zeroNodeID; received := O; period := 30 * Second |} in
  let now := Unix 1500000100 in
  connection_IsFlaky c now (connection_Update c (Unix 1500000090) ∅) = false /\
  connection_IsFlaky c now
    (connection_Update c (Unix 1500000000)
       (connection_Update c (Unix 1500000090) ∅)) = true.
Proof. split; reflexivity. Qed.

Lemma Handle_recording (s : net_Stream) (k : ecdsa_PublicKey)
    (p read write : Duration) (st : World (list (connection * Stream * heap))) :
  RemotePublicKey (Conn s) = Secp256k1PublicKey k ->
  Handle recording s p read write st
  = (None,
     {| cells := snd (fresh_connection (PubkeyID k) p (cells st));
        engine := engine st
                  ++ [(fst (fresh_connection (PubkeyID k) p (cells st)),
                       {| s := s; rlp := rlp_NewStream s 0;
                          readTimeout := read; writeTimeout := write |},
                       snd (fresh_connection (PubkeyID k) p (cells st)))] |}).
Proof.
  intros Hk. rewrite (Handle_secp256k1 recording s k p read write st Hk).
  reflexivity.
Qed.

(** X9. Every connection [Handle] makes has a cell of its own. After two
    calls, for any two secp256k1 peers (the same key twice included), the
    engine has been handed two connections with different cells, both
    holding the zero time, and an [Update] of the second leaves the
    flakiness of the first as it was. *)
Theorem Handle_connections_have_own_cells (k1 k2 : ecdsa_PublicKey)
    (p1 p2 read write : Duration)
    (st : World (list (connection * Stream * heap))) :
  let s1 := {| Conn := {| RemotePublicKey := Secp256k1PublicKey k1 |} |} in
  let s2 := {| Conn := {| RemotePublicKey := Secp256k1PublicKey k2 |} |} in
  let st1 := snd (Handle recording s1 p1 read write st) in
  let st2 := snd (Handle recording s2 p2 read write st1) in
  exists c1 x1 h1 c2 x2,
    engine st2 = engine st ++ [(c1, x1, h1); (c2, x2, cells st2)] /\
    id c1 = PubkeyID k1 /\ id c2 = PubkeyID k2 /\
    period c1 = p1 /\ period c2 = p2 /\
    received c1 <> received c2 /\
    Load (received c1) (cells st2) = Some zeroTime /\
    Load (received c2) (cells st2) = Some zeroTime /\
    (forall t now,
       connection_IsFlaky c1 now (connection_Update c2 t (cells st2))
       = connection_IsFlaky c1 now (cells st2)).
Proof.
  intros s1 s2 st1 st2.
  assert (E1 : Handle recording s1 p1 read write st = _)
    by (apply (Handle_recording s1 k1); reflexivity).
  assert (E2 : Handle recording s2 p2 read write st1 = _)
    by (apply (Handle_recording s2 k2); reflexivity).
  unfold st2. rewrite E2. unfold st1. rewrite E1. simpl.
  set (h := cells st).
  set (l1 := fresh (dom h)).
  set (h1 := <[l1 := Some zeroTime]> (<[l1 := None]> h)).
  set (l2 := fresh (dom h1)).
  assert (Hne : l1 <> l2).
  { intros E. assert (Hin : l1 ∈ dom h1).
    { unfold h1. rewrite !dom_insert_L. set_solver. }
    rewrite E in Hin. unfold l2 in Hin. exact (is_fresh (dom h1) Hin). }
  eexists _, _, _, _, _.
  split; [rewrite <- app_assoc; reflexivity |].
  simpl. unfold fresh_connection, new_Value, connection_Update, Store. simpl.
  fold h. fold l1. fold h1. fold l2.
  repeat split.
  - exact Hne.
  - unfold Load. rewrite lookup_insert_ne by (intros E; apply Hne; symmetry; exact E).
    rewrite lookup_insert_ne by (intros E; apply Hne; symmetry; exact E).
    unfold h1. rewrite lookup_insert_eq. reflexivity.
  - unfold Load. rewrite lookup_insert_eq. reflexivity.
  - intros t now. unfold connection_IsFlaky, Load. simpl.
    rewrite (lookup_insert_ne _ l2 l1) by (intros E; apply Hne; symmetry; exact E).
    reflexivity.
Qed.

(** X10. [Handle] adds one cell to the heap and leaves the others alone:
    the cell of the new connection was not in use before, and every
    connection made earlier is as flaky on the heap the engine receives as it
    was before the call. *)
Theorem Handle_keeps_existing_cells {E : Type} (w : Whisper E) (s : net_Stream)
    (k : ecdsa_PublicKey) (p read write : Duration) (st : World E) :
  RemotePublicKey (Conn s) = Secp256k1PublicKey k ->
  let conn := fst (fresh_connection (PubkeyID k) p (cells st)) in
  let h := snd (fresh_connection (PubkeyID k) p (cells st)) in
  Handle w s p read write st
  = HandleConnection w conn
      {| s := s; rlp := rlp_NewStream s 0;
         readTimeout := read; writeTimeout := write |}
      (with_cells st h) /\
  (received conn ∉ dom (cells st)) /\
  dom h = dom (cells st) ∪ {[received conn]} /\
  (forall c0 now, received c0 ∈ dom (cells st) ->
     Load (received c0) h = Load (received c0) (cells st) /\
     connection_IsFlaky c0 now h = connection_IsFlaky c0 now (cells st)).
Proof.
  intros Hk conn h.
  split; [apply Handle_secp256k1; exact Hk |].
  unfold conn, h, fresh_connection, new_Value, connection_Update, Store. simpl.
  set (l := fresh (dom (cells st))).
  assert (Hfresh : l ∉ dom (cells st)) by apply is_fresh.
  split; [exact Hfresh |].
  split.
  { rewrite !dom_insert_L. apply set_eq. intros x.
    rewrite !elem_of_union, !elem_of_singleton. tauto. }
  intros c0 now Hin.
  assert (Hne : l <> received c0) by (intros Eq; rewrite <- Eq in Hin; contradiction).
  assert (Hl : Load (received c0) (<[l := Some zeroTime]> (<[l := None]> (cells st)))
               = Load (received c0) (cells st)).
  { unfold Load. rewrite !lookup_insert_ne by exact Hne. reflexivity. }
  split; [exact Hl |].
  unfold connection_IsFlaky. rewrite Hl. reflexivity.
Qed.

Lemma Handle_keeps_existing_cells_witness :
  let sk := {| Conn := {| RemotePublicKey :=
                            Secp256k1PublicKey {| X := 1; Y := 2 |} |} |} in
  let old := {| id := zeroNodeID; received := O; period := 30 * Second |} in
  let st := {| cells := {[ O := Some (Unix 1500000000) ]};
               engine := @nil (connection * Stream * heap) |} in
  let h := snd (fresh_connection (PubkeyID {| X := 1; Y := 2 |}) Hour (cells st)) in
  RemotePublicKey (Conn sk) = Secp256k1PublicKey {| X := 1; Y := 2 |} /\
  received old ∈ dom (cells st) /\
  connection_IsFlaky old (Unix 1500000010) h
  = connection_IsFlaky old (Unix 1500000010) (cells st).
Proof.
  cbv zeta.
  pose proof (Handle_keeps_existing_cells recording
                {| Conn := {| RemotePublicKey :=
                                Secp256k1PublicKey {| X := 1; Y := 2 |} |} |}
                {| X := 1; Y := 2 |} Hour Second Second
                {| cells := {[ O := Some (Unix 1500000000) ]}; engine := [] |}
                eq_refl) as H.
  cbv zeta in H. destruct H as (_ & _ & _ & H).
  assert (Hin : O ∈ dom ({[ O := Some (Unix 1500000000) ]} : heap)).
  { rewrite dom_singleton_L. apply elem_of_singleton. reflexivity. }
  split; [reflexivity |]. split; [exact Hin |].
  exact (proj2 (H {| id := zeroNodeID; received := O; period := 30 * Second |}
                  (Unix 1500000010) Hin)).
Defined.

End ConnectionProperties.
